(** * The todo store of todo-list-cds

    A shallow embedding of the Redux slice that owns the todo list
    ([src/store/todoSlice.ts] and the second copy of the slice that
    renumbers its items), of the two handlers of [TodoList.tsx] that
    validate user input before dispatching, and of the search filter.

    Modelling conventions.
    - A JavaScript string is a [string]: a sequence of code units, here the
      code units below 256 (the Latin-1 range), one [ascii] each.  On that
      range [trim] and [toLowerCase] below are the ECMAScript functions.
    - [number] is [Z]: every [todoNo] the store computes is an integer.
    - A call that may throw returns an [option]; [None] is the exception
      and [default] plays the [catch] clause.
    - [localStorage] is a finite map from keys to strings together with two
      flags telling whether reading and writing throw.
    - [JSON.stringify] and [JSON.parse] at type [Todo[]] are an interface
      ([JSON]) with the two laws the store relies on: what is written
      parses back, and it is never the empty text.  [CompactJSON] is an
      instance that can be run.  The type is the one [loadFromLocalStorage]
      declares: a stored text either fails to parse or is read as a list
      of todos.
    - The repository holds two copies of the slice.  [TodoSlice] is
      src/store/todoSlice.ts; [TodoSliceSeq] is the copy that renumbers the
      items after each load, add and delete and takes its ids from the
      clock.  Both are embedded, and a statement about "both copies" is
      proved for each. *)

From Stdlib Require Import Ascii String.
From stdpp Require Import gmap strings list fin_maps pretty.

(** ** Strings *)

(** WhiteSpace and LineTerminator code units below 256: TAB, LF, VT, FF, CR,
    SP and NBSP. *)
Definition isWhiteSpace (c : ascii) : bool :=
  let n := N_of_ascii c in
  bool_decide (n = 9 ∨ n = 10 ∨ n = 11 ∨ n = 12 ∨ n = 13 ∨ n = 32 ∨ n = 160)%N.

Fixpoint trimStart (s : string) : string :=
  match s with
  | EmptyString => EmptyString
  | String c s' => if isWhiteSpace c then trimStart s' else s
  end.

Fixpoint trimEnd (s : string) : string :=
  match s with
  | EmptyString => EmptyString
  | String c s' =>
      match trimEnd s' with
      | EmptyString => if isWhiteSpace c then EmptyString else String c EmptyString
      | t => String c t
      end
  end.

(** [String.prototype.trim] *)
Definition trim (s : string) : string := trimEnd (trimStart s).

(** Upper-case letters below 256 are A-Z, and À-Þ without the
    multiplication sign; each has its lower-case partner 32 places up. *)
Definition lowerChar (c : ascii) : ascii :=
  let n := N_of_ascii c in
  if bool_decide ((65 ≤ n ≤ 90) ∨ (192 ≤ n ≤ 222 ∧ n ≠ 215))%N
  then ascii_of_N (n + 32) else c.

(** [String.prototype.toLowerCase] *)
Fixpoint toLowerCase (s : string) : string :=
  match s with
  | EmptyString => EmptyString
  | String c s' => String (lowerChar c) (toLowerCase s')
  end.

(** [String.prototype.includes]: [q] occurs in [s] at some position. *)
Fixpoint includes (s q : string) : bool :=
  String.prefix q s ||
  match s with
  | EmptyString => false
  | String _ s' => includes s' q
  end.

(** A string used as a condition is true when it is not empty. *)
Definition truthy (s : string) : bool := bool_decide (s ≠ "").

(** ** Data model (todoSlice.ts, lines 4-20) *)

Record Todo := mkTodo {
  id : string;
  todoNo : Z;
  text : string;
  description : string;
  completed : bool
}.

Record TodoState := mkTodoState {
  todos : list Todo;
  searchQuery : string
}.

Definition initialState : TodoState :=
  {| todos := []; searchQuery := "" |}.

Global Instance Todo_eq_dec : EqDecision Todo.
Proof. solve_decision. Defined.

Global Instance TodoState_eq_dec : EqDecision TodoState.
Proof. solve_decision. Defined.

(** Assignments to one field of a todo. *)
Definition set_todoNo (n : Z) (t : Todo) : Todo :=
  {| id := id t; todoNo := n; text := text t;
     description := description t; completed := completed t |}.

Definition set_completed (b : bool) (t : Todo) : Todo :=
  {| id := id t; todoNo := todoNo t; text := text t;
     description := description t; completed := b |}.

Definition set_text (s : string) (t : Todo) : Todo :=
  {| id := id t; todoNo := todoNo t; text := s;
     description := description t; completed := completed t |}.

Definition set_description (s : string) (t : Todo) : Todo :=
  {| id := id t; todoNo := todoNo t; text := text t;
     description := s; completed := completed t |}.

(** ** The browser *)

Record Storage := mkStorage {
  entries : gmap string string;
  getItem_throws : bool;
  setItem_throws : bool
}.

(** [None] is a read that throws; [Some None] is the [null] of a missing key. *)
Definition getItem (ls : Storage) (key : string) : option (option string) :=
  if getItem_throws ls then None else Some (entries ls !! key).

(** [None] is a write that throws and stores nothing. *)
Definition setItem (ls : Storage) (key value : string) : option Storage :=
  if setItem_throws ls then None
  else Some {| entries := <[key := value]> (entries ls);
               getItem_throws := getItem_throws ls;
               setItem_throws := setItem_throws ls |}.

(** [typeof window !== 'undefined'] holds exactly when there is a window,
    and then it carries [localStorage]. *)
Definition Window := option Storage.

(** The store together with the browser its reducers act on. *)
Record Store := mkStore {
  state : TodoState;
  window : Window
}.

(** The text the storage keeps under the key ['todos'], if any. *)
Definition persisted (w : Window) : option string :=
  ls ← w; entries ls !! "todos".

(** ** JSON at type [Todo[]] *)

Class JSON := {
  JSON_stringify : list Todo → string;
  (** [None] is the SyntaxError of a text that does not parse. *)
  JSON_parse : string → option (list Todo);
  JSON_parse_stringify : ∀ l, JSON_parse (JSON_stringify l) = Some l;
  JSON_stringify_truthy : ∀ l, JSON_stringify l ≠ ""
}.

(** ** What the two copies of the slice share

    [loadFromLocalStorage], [saveToLocalStorage], [toggleTodo],
    [updateTodoText] and [setSearchQuery] read the same in both files. *)

Section shared.
Context `{JSON}.

(** todoSlice.ts, lines 23-34.  The [catch] clause logs and returns []. *)
Definition loadFromLocalStorage (w : Window) : list Todo :=
  match w with
  | Some localStorage =>
      default []
        (savedTodos ← getItem localStorage "todos";
         match savedTodos with
         | Some s => if truthy s then JSON_parse s else Some []
         | None => Some []
         end)
  | None => []
  end.

(** todoSlice.ts, lines 37-45.  The [catch] clause only logs. *)
Definition saveToLocalStorage (l : list Todo) (w : Window) : Window :=
  match w with
  | Some localStorage =>
      Some (default localStorage
              (setItem localStorage "todos" (JSON_stringify l)))
  | None => None
  end.

(** The store after [state.todos] has become [l] and [l] has been saved. *)
Definition commit (l : list Todo) (s : Store) : Store :=
  {| state := {| todos := l; searchQuery := searchQuery (state s) |};
     window := saveToLocalStorage l (window s) |}.

(** todoSlice.ts, lines 65-71: [find] gives the first item with the id and
    the assignment changes it where it sits in the list. *)
Definition toggleTodo (payload : string) (s : Store) : Store :=
  match list_find (λ todo, id todo = payload) (todos (state s)) with
  | Some (i, todo) =>
      commit (<[i := set_completed (negb (completed todo)) todo]>
                (todos (state s))) s
  | None => s
  end.

(** todoSlice.ts, lines 76-83 *)
Definition updateTodoText (payload_id payload_text payload_description : string)
    (s : Store) : Store :=
  match list_find (λ todo, id todo = payload_id) (todos (state s)) with
  | Some (i, todo) =>
      commit (<[i := set_description payload_description
                       (set_text payload_text todo)]> (todos (state s))) s
  | None => s
  end.

(** todoSlice.ts, lines 84-86 *)
Definition setSearchQuery (payload : string) (s : Store) : Store :=
  {| state := {| todos := todos (state s); searchQuery := payload |};
     window := window s |}.

End shared.

(** The actions of the slice with their payloads. *)
Inductive Action :=
  | InitializeTodos
  | AddTodo (text description : string)
  | ToggleTodo (payload : string)
  | DeleteTodo (payload : string)
  | UpdateTodoText (id text description : string)
  | SetSearchQuery (payload : string).

(** ** src/store/todoSlice.ts *)

Module TodoSlice.
Section reducers.
Context `{JSON}.

(** lines 51-53 *)
Definition initializeTodos (s : Store) : Store :=
  {| state := {| todos := loadFromLocalStorage (window s);
                 searchQuery := searchQuery (state s) |};
     window := window s |}.

(** lines 54-64; [nanoid] is the string the call [nanoid()] returns. *)
Definition addTodo (nanoid : string) (payload_text payload_description : string)
    (s : Store) : Store :=
  let newTodo :=
    {| id := nanoid;
       todoNo := Z.of_nat (length (todos (state s))) + 1;
       text := payload_text;
       description := payload_description;
       completed := false |} in
  commit (todos (state s) ++ [newTodo]) s.

(** lines 72-75 *)
Definition deleteTodo (payload : string) (s : Store) : Store :=
  commit (filter (λ todo, id todo ≠ payload) (todos (state s))) s.

Definition reducer (nanoid : string) (a : Action) (s : Store) : Store :=
  match a with
  | InitializeTodos => initializeTodos s
  | AddTodo t d => addTodo nanoid t d s
  | ToggleTodo p => toggleTodo p s
  | DeleteTodo p => deleteTodo p s
  | UpdateTodoText i t d => updateTodoText i t d s
  | SetSearchQuery q => setSearchQuery q s
  end.

End reducers.
End TodoSlice.

(** ** The copy of the slice that renumbers (src/unnamed/part_000) *)

Module TodoSliceSeq.
Section reducers.
Context `{JSON}.

(** [todos.forEach((todo, index) => { todo.todoNo = index + 1; })] *)
Definition renumber (l : list Todo) : list Todo :=
  imap (λ index todo, set_todoNo (Z.of_nat index + 1) todo) l.

(** lines 50-57 *)
Definition initializeTodos (s : Store) : Store :=
  let loadedTodos := loadFromLocalStorage (window s) in
  {| state := {| todos := renumber loadedTodos;
                 searchQuery := searchQuery (state s) |};
     window := window s |}.

(** [length > 0 ? Math.max(...todos.map(todo => todo.todoNo)) : 0] *)
Definition maxTodoNo (l : list Todo) : Z :=
  match todoNo <$> l with
  | [] => 0
  | n :: ns => foldr Z.max n ns
  end.

(** lines 58-74; [now] is the number the call [Date.now()] returns and
    [pretty] its decimal [toString()]. *)
Definition addTodo (now : Z) (payload_text payload_description : string)
    (s : Store) : Store :=
  let newTodo :=
    {| id := pretty now;
       todoNo := maxTodoNo (todos (state s)) + 1;
       text := payload_text;
       description := payload_description;
       completed := false |} in
  commit (renumber (todos (state s) ++ [newTodo])) s.

(** lines 82-89 *)
Definition deleteTodo (payload : string) (s : Store) : Store :=
  commit (renumber (filter (λ todo, id todo ≠ payload) (todos (state s)))) s.

Definition reducer (now : Z) (a : Action) (s : Store) : Store :=
  match a with
  | InitializeTodos => initializeTodos s
  | AddTodo t d => addTodo now t d s
  | ToggleTodo p => toggleTodo p s
  | DeleteTodo p => deleteTodo p s
  | UpdateTodoText i t d => updateTodoText i t d s
  | SetSearchQuery q => setSearchQuery q s
  end.

End reducers.
End TodoSliceSeq.

(** ** src/components/TodoList.tsx *)

(** lines 35-37 *)
Definition filteredTodos (st : TodoState) : list Todo :=
  filter (λ todo : Todo,
            includes (toLowerCase (text todo)) (toLowerCase (searchQuery st)))
         (todos st).

(** lines 39-48: the action dispatched, if one is. *)
Definition handleAddTodo (newTodoText newTodoDescription : string)
    : option Action :=
  if truthy (trim newTodoText)
  then Some (AddTodo (trim newTodoText) (trim newTodoDescription))
  else None.

(** lines 66-76; [editingTodo] is [null] while nothing is being edited. *)
Definition handleSaveEdit (editingTodo : option Todo) : option Action :=
  match editingTodo with
  | Some e =>
      if truthy (trim (text e))
      then Some (UpdateTodoText (id e) (trim (text e)) (trim (description e)))
      else None
  | None => None
  end.

(** [dispatch] runs the reducer on the action, and a handler that
    dispatches nothing leaves the store as it is. *)
Definition dispatch {E} (reducer : E → Action → Store → Store) (e : E)
    (a : option Action) (s : Store) : Store :=
  match a with
  | Some a => reducer e a s
  | None => s
  end.

(** ** An executable JSON for [Todo[]]

    [stringify] writes what [JSON.stringify] writes for an array of todos
    whose fields were set in the order of [addTodo]: no white space, the
    keys in that order, strings quoted as QuoteJSONString does.  [parse]
    reads that form back. *)

Module CompactJSON.

Definition dquote : ascii := "034"%char.
Definition backslash : ascii := "092"%char.

Definition hexChar (n : N) : ascii :=
  match n with
  | 0 => "0" | 1 => "1" | 2 => "2" | 3 => "3" | 4 => "4" | 5 => "5"
  | 6 => "6" | 7 => "7" | 8 => "8" | 9 => "9" | 10 => "a" | 11 => "b"
  | 12 => "c" | 13 => "d" | 14 => "e" | _ => "f"
  end%char%N.

Definition hexValue (c : ascii) : option N :=
  let n := N_of_ascii c in
  if bool_decide (48 ≤ n ≤ 57)%N then Some (n - 48)%N
  else if bool_decide (97 ≤ n ≤ 102)%N then Some (n - 87)%N
  else if bool_decide (65 ≤ n ≤ 70)%N then Some (n - 55)%N
  else None.

(** One code unit inside a quoted string, followed by [k]. *)
Definition quoteChar (c : ascii) (k : string) : string :=
  let n := N_of_ascii c in
  if bool_decide (n = 8)%N then String backslash (String "b" k)
  else if bool_decide (n = 9)%N then String backslash (String "t" k)
  else if bool_decide (n = 10)%N then String backslash (String "n" k)
  else if bool_decide (n = 12)%N then String backslash (String "f" k)
  else if bool_decide (n = 13)%N then String backslash (String "r" k)
  else if bool_decide (n = 34)%N then String backslash (String dquote k)
  else if bool_decide (n = 92)%N then String backslash (String backslash k)
  else if bool_decide (n < 32)%N then
    String backslash (String "u" (String "0" (String "0"
      (String (hexChar (n `div` 16)) (String (hexChar (n `mod` 16)) k)))))
  else String c k.

Fixpoint quoteChars (s k : string) : string :=
  match s with
  | EmptyString => k
  | String c s' => quoteChar c (quoteChars s' k)
  end.

Definition quote (s k : string) : string :=
  String dquote (quoteChars s (String dquote k)).

Definition showNumber (n : Z) (k : string) : string := pretty n +:+ k.

Definition showBool (b : bool) (k : string) : string :=
  (if b then "true" else "false") +:+ k.

Definition key (name : string) (k : string) : string :=
  quote name (String ":" k).

Definition showTodo (t : Todo) (k : string) : string :=
  String "{" (key "id" (quote (id t)
    (String "," (key "todoNo" (showNumber (todoNo t)
    (String "," (key "text" (quote (text t)
    (String "," (key "description" (quote (description t)
    (String "," (key "completed" (showBool (completed t)
    (String "}" k))))))))))))))).

Fixpoint showItems (t : Todo) (ts : list Todo) (k : string) : string :=
  match ts with
  | [] => showTodo t (String "]" k)
  | t' :: ts' => showTodo t (String "," (showItems t' ts' k))
  end.

Definition stringify (l : list Todo) : string :=
  match l with
  | [] => "[]"
  | t :: ts => String "[" (showItems t ts "")
  end.

(** Reading.  Every reader returns what it read and the rest of the text. *)

Fixpoint expect (lit : string) (s : string) : option string :=
  match lit with
  | EmptyString => Some s
  | String c lit' =>
      match s with
      | String d s' => if bool_decide (c = d) then expect lit' s' else None
      | EmptyString => None
      end
  end.

(** One code unit or escape, given the reader [readChars] for what follows. *)
Definition readChar (readChars : string → option (string * string))
    (c : ascii) (s' : string) : option (string * string) :=
  let more (c : ascii) (s : string) :=
    '(r, k) ← readChars s; Some (String c r, k) in
  if bool_decide (c = dquote) then Some (EmptyString, s')
  else if bool_decide (c = backslash) then
    match s' with
    | String e s'' =>
        if bool_decide (e = "b"%char) then more "008"%char s''
        else if bool_decide (e = "t"%char) then more "009"%char s''
        else if bool_decide (e = "n"%char) then more "010"%char s''
        else if bool_decide (e = "f"%char) then more "012"%char s''
        else if bool_decide (e = "r"%char) then more "013"%char s''
        else if bool_decide (e = "/"%char) then more "/"%char s''
        else if bool_decide (e = dquote) then more dquote s''
        else if bool_decide (e = backslash) then more backslash s''
        else if bool_decide (e = "u"%char) then
          match s'' with
          | String h1 (String h2 (String h3 (String h4 s4))) =>
              d1 ← hexValue h1; d2 ← hexValue h2;
              d3 ← hexValue h3; d4 ← hexValue h4;
              if bool_decide (d1 = 0 ∧ d2 = 0)%N
              then more (ascii_of_N (d3 * 16 + d4)) s4
              else None
          | _ => None
          end
        else None
    | EmptyString => None
    end
  else if bool_decide (N_of_ascii c < 32)%N then None
  else more c s'.

Fixpoint readChars (s : string) : option (string * string) :=
  match s with
  | EmptyString => None
  | String c s' => readChar readChars c s'
  end.

Definition readQuoted (s : string) : option (string * string) :=
  match s with
  | String c s' => if bool_decide (c = dquote) then readChars s' else None
  | EmptyString => None
  end.

Definition digitValue (c : ascii) : option N :=
  let n := N_of_ascii c in
  if bool_decide (48 ≤ n ≤ 57)%N then Some (n - 48)%N else None.

Fixpoint readDigits (acc : N) (s : string) : N * string :=
  match s with
  | String c s' =>
      match digitValue c with
      | Some d => readDigits (acc * 10 + d) s'
      | None => (acc, s)
      end
  | EmptyString => (acc, s)
  end.

Definition readNumber (s : string) : option (Z * string) :=
  match s with
  | String c s' =>
      if bool_decide (c = "-"%char) then
        match s' with
        | String d _ =>
            if digitValue d is Some _
            then let '(n, k) := readDigits 0 s' in Some ((- Z.of_N n)%Z, k)
            else None
        | EmptyString => None
        end
      else if digitValue c is Some _
      then let '(n, k) := readDigits 0 s in Some (Z.of_N n, k)
      else None
  | EmptyString => None
  end.

Definition readBool (s : string) : option (bool * string) :=
  match expect "true" s with
  | Some k => Some (true, k)
  | None => k ← expect "false" s; Some (false, k)
  end.

Definition readKey (name : string) (s : string) : option string :=
  '(n, k) ← readQuoted s;
  if bool_decide (n = name) then expect ":" k else None.

Definition readTodo (s : string) : option (Todo * string) :=
  s ← expect "{" s;
  s ← readKey "id" s; '(i, s) ← readQuoted s; s ← expect "," s;
  s ← readKey "todoNo" s; '(n, s) ← readNumber s; s ← expect "," s;
  s ← readKey "text" s; '(t, s) ← readQuoted s; s ← expect "," s;
  s ← readKey "description" s; '(d, s) ← readQuoted s; s ← expect "," s;
  s ← readKey "completed" s; '(c, s) ← readBool s;
  s ← expect "}" s;
  Some ({| id := i; todoNo := n; text := t; description := d;
           completed := c |}, s).

Fixpoint readItems (fuel : nat) (s : string) : option (list Todo * string) :=
  match fuel with
  | 0 => None
  | S fuel =>
      '(t, s) ← readTodo s;
      match s with
      | String c s' =>
          if bool_decide (c = ","%char)
          then '(ts, k) ← readItems fuel s'; Some (t :: ts, k)
          else if bool_decide (c = "]"%char) then Some ([t], s')
          else None
      | EmptyString => None
      end
  end.

(** A todo takes more than one code unit, so the length of the text is
    fuel enough. *)
Definition parse (s : string) : option (list Todo) :=
  match s with
  | String c s' =>
      if bool_decide (c = "["%char) then
        if bool_decide (s' = "]") then Some []
        else '(ts, k) ← readItems (String.length s') s';
             if bool_decide (k = "") then Some ts else None
      else None
  | EmptyString => None
  end.

(** What may follow a number: anything but a digit. *)
Definition noDigit (k : string) : Prop :=
  match k with String c _ => digitValue c = None | EmptyString => True end.

End CompactJSON.

(** ** Runs of a slice *)

(** The store after the actions of [acts] in turn; each comes with what
    the environment hands the reducer on that dispatch (the result of
    [nanoid()], or of [Date.now()]). *)
Definition run {E} (reducer : E → Action → Store → Store)
    (acts : list (E * Action)) (s : Store) : Store :=
  foldl (λ s ea, reducer ea.1 ea.2 s) s acts.

(** Every [AddTodo] of the run gets an id that no item has at that time;
    [newId] tells the id made from what the environment hands over. *)
Fixpoint fresh_run {E} (reducer : E → Action → Store → Store)
    (newId : E → string) (acts : list (E * Action)) (s : Store) : Prop :=
  match acts with
  | [] => True
  | (e, a) :: acts' =>
      (if a is AddTodo _ _ then newId e ∉ id <$> todos (state s) else True)
      ∧ fresh_run reducer newId acts' (reducer e a s)
  end.

(** A new process on the same browser. *)
Definition restart (s : Store) : Store :=
  {| state := initialState; window := window s |}.

(** A window whose storage can be read, and one whose storage can be
    written. *)
Definition readable (w : Window) : Prop :=
  ∃ ls, w = Some ls ∧ getItem_throws ls = false.

Definition writable (w : Window) : Prop :=
  ∃ ls, w = Some ls ∧ setItem_throws ls = false.


(** ** The words of the specification *)

(** Every [todoNo] is the 1-based position of its item. *)
Definition numbered (l : list Todo) : Prop :=
  ∀ i t, l !! i = Some t → todoNo t = (Z.of_nat i + 1)%Z.

(** The title has a part that is the filter up to the case of letters. *)
Definition contains_ignoring_case (title filter : string) : Prop :=
  ∃ pre mid post,
    title = pre +:+ mid +:+ post ∧ toLowerCase mid = toLowerCase filter.

(** [r] is [l] without the items that fail [P], the others in their order. *)
Inductive those (P : Todo → Prop) : list Todo → list Todo → Prop :=
  | those_nil : those P [] []
  | those_keep t l r : P t → those P l r → those P (t :: l) (t :: r)
  | those_skip t l r : ¬ P t → those P l r → those P (t :: l) r.

(** What [toggleTodo] and [updateTodoText] may change in an item. *)
Definition same_but_completed (p : string) (u u' : Todo) : Prop :=
  id u' = id u ∧ todoNo u' = todoNo u ∧ text u' = text u ∧
  description u' = description u ∧ (id u ≠ p → completed u' = completed u).

Definition same_but_text (p : string) (u u' : Todo) : Prop :=
  id u' = id u ∧ todoNo u' = todoNo u ∧ completed u' = completed u ∧
  (id u ≠ p → text u' = text u ∧ description u' = description u).

(** ** Invariants of the runs *)

(** The invariant behind unique ids: the ids in memory are distinct, and so
    are the ids of what the storage holds. *)
Definition distinct_ids `{JSON} (s : Store) : Prop :=
  NoDup (id <$> todos (state s)) ∧
  NoDup (id <$> loadFromLocalStorage (window s)).



(** What the copy that renumbers keeps in a storage that held [p0]: the
    items are numbered, and the storage holds [p0] still or the
    serialization of a numbered list. *)
Definition seq_saved_numbered `{JSON} (p0 : option string) (s : Store) : Prop :=
  numbered (todos (state s)) ∧
  (persisted (window s) = p0 ∨
   ∃ l, numbered l ∧ persisted (window s) = Some (JSON_stringify l)).

(** ** Concrete stores *)

(** A browser with nothing stored, whose storage works. *)
Definition fresh_browser : Window :=
  Some {| entries := ∅; getItem_throws := false; setItem_throws := false |}.

Definition milk : Todo := mkTodo "a" 1 "Buy milk" "" false.
Definition bob : Todo := mkTodo "b" 2 "Call Bob" "re: project" false.

(** The store after the two items were added on a fresh browser. *)
Definition two_items `{JSON} : Store :=
  run TodoSlice.reducer
    [("a", AddTodo "Buy milk" ""); ("b", AddTodo "Call Bob" "re: project")]
    {| state := initialState; window := fresh_browser |}.

(** ** What [toggleTodo] and [updateTodoText] have in common

    Both look up the first item with the id, assign to fields of it and
    save; [modify] is that with the assignment [f] left open. *)
Definition modify `{JSON} (payload : string) (f : Todo → Todo) (s : Store)
    : Store :=
  match list_find (λ todo, id todo = payload) (todos (state s)) with
  | Some (i, todo) => commit (<[i := f todo]> (todos (state s))) s
  | None => s
  end.

(** ** src/components/TodoList.tsx: the component state and its handlers *)

Module TodoList.

(** lines 26-29: the four [useState] cells. *)
Record Local := mkLocal {
  newTodoText : string;
  newTodoDescription : string;
  editingTodo : option Todo;
  isEditModalOpen : bool
}.

Definition initialLocal : Local :=
  {| newTodoText := ""; newTodoDescription := "";
     editingTodo := None; isEditModalOpen := false |}.

(** The component state together with the Redux store it is connected to. *)
Record App := mkApp {
  local : Local;
  store : Store
}.

(** The actions that [handleAddTodo] and [handleSaveEdit] dispatch were
    given above, outside this module; the handlers below, of the same
    names, dispatch them and update the component state as well. *)
Local Abbreviation addAction := handleAddTodo.
Local Abbreviation saveAction := handleSaveEdit.

Section handlers.
Context {E : Type} (reducer : E → Action → Store → Store) (e : E).

(** lines 31-33 *)
Definition mount (a : App) : App :=
  {| local := local a; store := reducer e InitializeTodos (store a) |}.

(** lines 39-48 *)
Definition handleAddTodo (a : App) : App :=
  match addAction (newTodoText (local a)) (newTodoDescription (local a)) with
  | Some action =>
      {| local := {| newTodoText := ""; newTodoDescription := "";
                     editingTodo := editingTodo (local a);
                     isEditModalOpen := isEditModalOpen (local a) |};
         store := reducer e action (store a) |}
  | None => a
  end.

(** lines 50-52 *)
Definition handleToggleTodo (id : string) (a : App) : App :=
  {| local := local a; store := reducer e (ToggleTodo id) (store a) |}.

(** lines 54-56 *)
Definition handleDeleteTodo (id : string) (a : App) : App :=
  {| local := local a; store := reducer e (DeleteTodo id) (store a) |}.

(** lines 58-64 *)
Definition handleEditTodo (id0 : string) (a : App) : App :=
  match list_find (λ t, id t = id0) (todos (state (store a))) with
  | Some (_, todo) =>
      {| local := {| newTodoText := newTodoText (local a);
                     newTodoDescription := newTodoDescription (local a);
                     editingTodo := Some todo;
                     isEditModalOpen := true |};
         store := store a |}
  | None => a
  end.

(** lines 66-76 *)
Definition handleSaveEdit (a : App) : App :=
  match saveAction (editingTodo (local a)) with
  | Some action =>
      {| local := {| newTodoText := newTodoText (local a);
                     newTodoDescription := newTodoDescription (local a);
                     editingTodo := None;
                     isEditModalOpen := false |};
         store := reducer e action (store a) |}
  | None => a
  end.

(** lines 78-81 *)
Definition handleCancelEdit (a : App) : App :=
  {| local := {| newTodoText := newTodoText (local a);
                 newTodoDescription := newTodoDescription (local a);
                 editingTodo := None;
                 isEditModalOpen := false |};
     store := store a |}.

(** lines 83-85 *)
Definition handleSearchChange (value : string) (a : App) : App :=
  {| local := local a; store := reducer e (SetSearchQuery value) (store a) |}.

End handlers.

(** [onChange={setNewTodoText}] and [onChange={setNewTodoDescription}],
    lines 106 and 115. *)
Definition setNewTodoText (value : string) (a : App) : App :=
  {| local := {| newTodoText := value;
                 newTodoDescription := newTodoDescription (local a);
                 editingTodo := editingTodo (local a);
                 isEditModalOpen := isEditModalOpen (local a) |};
     store := store a |}.

Definition setNewTodoDescription (value : string) (a : App) : App :=
  {| local := {| newTodoText := newTodoText (local a);
                 newTodoDescription := value;
                 editingTodo := editingTodo (local a);
                 isEditModalOpen := isEditModalOpen (local a) |};
     store := store a |}.

(** lines 154-156: [prev => prev ? { ...prev, text: value } : null] *)
Definition onTextChange (value : string) (a : App) : App :=
  {| local := {| newTodoText := newTodoText (local a);
                 newTodoDescription := newTodoDescription (local a);
                 editingTodo := set_text value <$> editingTodo (local a);
                 isEditModalOpen := isEditModalOpen (local a) |};
     store := store a |}.

(** lines 157-159 *)
Definition onDescriptionChange (value : string) (a : App) : App :=
  {| local := {| newTodoText := newTodoText (local a);
                 newTodoDescription := newTodoDescription (local a);
                 editingTodo := set_description value <$> editingTodo (local a);
                 isEditModalOpen := isEditModalOpen (local a) |};
     store := store a |}.

(** What the user can do to the rendered component. *)
Inductive Event :=
  | Mount
  | TypeTitle (value : string)
  | TypeDescription (value : string)
  | ClickAdd
  | ClickToggle (id : string)
  | ClickDelete (id : string)
  | ClickEdit (id : string)
  | EditTitle (value : string)
  | EditDescription (value : string)
  | ClickSave
  | ClickCancel
  | TypeSearch (value : string).

Definition handle {E} (reducer : E → Action → Store → Store) (e : E)
    (ev : Event) (a : App) : App :=
  match ev with
  | Mount => mount reducer e a
  | TypeTitle v => setNewTodoText v a
  | TypeDescription v => setNewTodoDescription v a
  | ClickAdd => handleAddTodo reducer e a
  | ClickToggle i => handleToggleTodo reducer e i a
  | ClickDelete i => handleDeleteTodo reducer e i a
  | ClickEdit i => handleEditTodo i a
  | EditTitle v => onTextChange v a
  | EditDescription v => onDescriptionChange v a
  | ClickSave => handleSaveEdit reducer e a
  | ClickCancel => handleCancelEdit a
  | TypeSearch v => handleSearchChange reducer e v a
  end.

(** The component after the events in turn. *)
Definition session {E} (reducer : E → Action → Store → Store)
    (evs : list (E * Event)) (a : App) : App :=
  foldl (λ a ev, handle reducer ev.1 ev.2 a) a evs.

(** line 124: [disabled={!newTodoText.trim()}] on the Add button. *)
Definition addDisabled (a : App) : bool :=
  negb (truthy (trim (newTodoText (local a)))).

(** lines 140-142: the three numbers of the summary line. *)
Definition total (st : TodoState) : nat := length (todos st).

Definition active (st : TodoState) : nat :=
  length (filter (λ t : Todo, negb (completed t)) (todos st)).

Definition completedCount (st : TodoState) : nat :=
  length (filter (λ t : Todo, completed t) (todos st)).

End TodoList.

(** ** The table (DataTable.tsx in src/unnamed/part_001) *)

Module DataTable.

(** lines 45-53: one row per todo. *)
Record Row := mkRow {
  row_id : string;
  toggle : bool;
  row_todoNo : Z;
  row_text : string;
  row_description : string;
  status : bool;
  actions : Todo
}.

Definition rows (todos : list Todo) : list Row :=
  (λ todo,
     {| row_id := id todo;
        toggle := completed todo;
        row_todoNo := todoNo todo;
        row_text := text todo;
        row_description :=
          if truthy (description todo) then description todo
          else "No description";
        status := completed todo;
        actions := todo |}) <$> todos.

(** lines 68-126: the body is one cell with a message when there are no
    rows, and the rows otherwise. *)
Inductive Body :=
  | Message (text : string)
  | Rows (rows : list Row).

Definition body (todos : list Todo) (totalTodos : nat) (searchQuery : string)
    : Body :=
  match rows todos with
  | [] =>
      Message
        (if bool_decide (totalTodos = 0) then "No todos yet. Add one above!"
         else "No todos match your search " +:+
              String "034" (searchQuery +:+ String "034" "."))
  | r => Rows r
  end.

(** TodoList.tsx, lines 130-137: the table the component renders. *)
Definition rendered (st : TodoState) : Body :=
  body (filteredTodos st) (length (todos st)) (searchQuery st).

End DataTable.

(** ** More words for runs, browsers and items *)

(** The payload of the last [SetSearchQuery] of the run, [q0] without one. *)
Definition lastQuery {E} (acts : list (E * Action)) (q0 : string) : string :=
  foldl (λ q ea, if ea.2 is SetSearchQuery v then v else q) q0 acts.

(** The windows differ at most in what is kept under 'todos'. *)
Definition same_but_todos_key (w w' : Window) : Prop :=
  match w, w' with
  | None, None => True
  | Some ls, Some ls' =>
      getItem_throws ls' = getItem_throws ls ∧
      setItem_throws ls' = setItem_throws ls ∧
      ∀ k, k ≠ "todos" → entries ls' !! k = entries ls !! k
  | _, _ => False
  end.

(** The action is none of [DeleteTodo]. *)
Definition no_delete {E} (acts : list (E * Action)) : Prop :=
  Forall (λ ea, if ea.2 is DeleteTodo _ then False else True) acts.

(** The items agree in everything but the number. *)
Definition same_but_todoNo (u u' : Todo) : Prop :=
  id u' = id u ∧ text u' = text u ∧ description u' = description u ∧
  completed u' = completed u.

(** The items in memory are numbered by position, and so are the stored. *)
Definition both_numbered `{JSON} (s : Store) : Prop :=
  numbered (todos (state s)) ∧
  numbered (loadFromLocalStorage (window s)).

(** The two copies of the slice side by side: the same browser outside the
    key, items that agree but for their numbers, in memory and in the
    storage, and the renumbering copy numbered by position. *)
Definition side_by_side `{JSON} (sA sB : Store) : Prop :=
  searchQuery (state sB) = searchQuery (state sA) ∧
  Forall2 same_but_todoNo (todos (state sA)) (todos (state sB)) ∧
  numbered (todos (state sB)) ∧
  same_but_todos_key (window sA) (window sB) ∧
  Forall2 same_but_todoNo
    (loadFromLocalStorage (window sA)) (loadFromLocalStorage (window sB)).

(** The title is not empty, and title and description are trimmed. *)
Definition tidy (t : Todo) : Prop :=
  text t ≠ "" ∧ trim (text t) = text t ∧ trim (description t) = description t.

(** The items in memory are tidy, and so are the stored. *)
Definition all_tidy `{JSON} (s : Store) : Prop :=
  Forall tidy (todos (state s)) ∧
  Forall tidy (loadFromLocalStorage (window s)).

(** The texts an action carries are trimmed and its title is not empty. *)
Definition tidy_action (a : Action) : Prop :=
  match a with
  | AddTodo t d | UpdateTodoText _ t d => t ≠ "" ∧ trim t = t ∧ trim d = d
  | _ => True
  end.

(** The modal is open exactly while a todo is being edited. *)
Definition modal_matches (l : TodoList.Local) : Prop :=
  TodoList.isEditModalOpen l = bool_decide (is_Some (TodoList.editingTodo l)).

(** The clock values handed to the adds of a run, in their order. *)
Definition add_times (acts : list (Z * Action)) : list Z :=
  omap (λ ea, if ea.2 is AddTodo _ _ then Some ea.1 else None) acts.

(** Every id, in memory and stored, is the decimal of a clock value of
    [used]. *)
Definition ids_from `{JSON} (used : list Z) (s : Store) : Prop :=
  (id <$> todos (state s)) ⊆ pretty <$> used ∧
  (id <$> loadFromLocalStorage (window s)) ⊆ pretty <$> used.

(** * Facts *)

(** ** [CompactJSON] reads back what it writes *)

Module CompactJSONFacts.
Import CompactJSON.

Lemma readChars_unfold c s : readChars (String c s) = readChar readChars c s.
Proof. done. Qed.

Lemma readChars_quoteChar c r :
  readChars (quoteChar c r) =
  match readChars r with Some (x, k) => Some (String c x, k) | None => None end.
Proof.
  destruct c as [b0 b1 b2 b3 b4 b5 b6 b7].
  destruct b0, b1, b2, b3, b4, b5, b6, b7;
    cbv -[readChars]; rewrite readChars_unfold; cbv -[readChars];
    by destruct (readChars r) as [[??]|].
Qed.

Lemma readChars_quoteChars s k :
  readChars (quoteChars s (String dquote k)) = Some (s, k).
Proof.
  induction s as [|c s IH]; [done|].
  cbn [quoteChars]. by rewrite readChars_quoteChar, IH.
Qed.

Lemma readQuoted_quote s k : readQuoted (quote s k) = Some (s, k).
Proof. apply readChars_quoteChars. Qed.

Lemma expect_append lit k : expect lit (lit +:+ k) = Some k.
Proof.
  induction lit as [|c lit IH]; [done|].
  change (expect (String c lit) (String c lit +:+ k))
    with (if bool_decide (c = c) then expect lit (lit +:+ k) else None).
  by rewrite bool_decide_eq_true_2.
Qed.

Lemma expect_char c k : expect (String c "") (String c k) = Some k.
Proof. apply (expect_append (String c "")). Qed.

Lemma readKey_key name k : readKey name (key name k) = Some k.
Proof.
  unfold readKey, key. rewrite readQuoted_quote. cbn [mbind option_bind].
  rewrite bool_decide_eq_true_2 by done. apply expect_char.
Qed.

Lemma readBool_showBool b k : readBool (showBool b k) = Some (b, k).
Proof. by destruct b. Qed.

Lemma digitValue_pretty d : (d < 10)%N → digitValue (pretty_N_char d) = Some d.
Proof.
  intros Hd.
  assert (d = 0 ∨ d = 1 ∨ d = 2 ∨ d = 3 ∨ d = 4 ∨ d = 5 ∨ d = 6 ∨ d = 7
          ∨ d = 8 ∨ d = 9)%N as Hcases by lia.
  by repeat (destruct Hcases as [->|Hcases]); [..|subst d].
Qed.

Lemma readDigits_noDigit acc k : noDigit k → readDigits acc k = (acc, k).
Proof. destruct k as [|c k]; [done|]. cbn. by intros ->. Qed.

Lemma readDigits_pretty x : ∀ acc k,
  ∃ m, readDigits acc (pretty_N_go x k) = readDigits (acc * 10 ^ m + x) k.
Proof.
  induction (N.lt_wf_0 x) as [x _ IH]; intros acc k.
  destruct (decide (x = 0)%N) as [->|Hx].
  { exists 0%N. rewrite pretty_N_go_0. f_equal. lia. }
  rewrite pretty_N_go_step by lia.
  destruct (IH (x `div` 10)%N) with (acc := acc)
    (k := String (pretty_N_char (x `mod` 10)) k) as [m ->].
  { apply N.div_lt; lia. }
  exists (m + 1)%N. cbn [readDigits].
  rewrite digitValue_pretty by (apply N.mod_lt; lia).
  f_equal. rewrite N.pow_add_r. pose proof (N.div_mod x 10). lia.
Qed.

Lemma pretty_N_go_digit x k :
  (0 < x)%N →
  ∃ c s, pretty_N_go x k = String c s ∧ is_Some (digitValue c).
Proof.
  revert k. induction (N.lt_wf_0 x) as [x _ IH]; intros k Hx.
  rewrite pretty_N_go_step by done.
  destruct (decide (x `div` 10 = 0)%N) as [->|Hdiv].
  - rewrite pretty_N_go_0. eexists _, _. split; [done|].
    rewrite digitValue_pretty; [done|]. apply N.mod_lt; lia.
  - apply IH; [apply N.div_lt; lia|].
    apply N.neq_0_lt_0. done.
Qed.

Lemma pretty_N_go_append x : ∀ s k,
  pretty_N_go x s +:+ k = pretty_N_go x (s +:+ k).
Proof.
  induction (N.lt_wf_0 x) as [x _ IH]; intros s k.
  destruct (decide (x = 0)%N) as [->|Hx]; [by rewrite !pretty_N_go_0|].
  rewrite (pretty_N_go_step x s), (pretty_N_go_step x (s +:+ k)) by lia.
  rewrite IH; [reflexivity|]. apply N.div_lt; lia.
Qed.

Lemma readDigits_positive p k :
  noDigit k → readDigits 0 (pretty_N_go (N.pos p) k) = (N.pos p, k).
Proof.
  intros Hk. destruct (readDigits_pretty (N.pos p) 0 k) as [m ->].
  rewrite readDigits_noDigit by done. f_equal. 
Qed.

Lemma readNumber_digits c d s :
  digitValue c = Some d →
  readNumber (String c s) =
  let '(n, k) := readDigits 0 (String c s) in Some (Z.of_N n, k).
Proof.
  intros Hd. unfold readNumber. rewrite Hd.
  rewrite bool_decide_eq_false_2; [done|].
  intros ->. vm_compute in Hd. discriminate.
Qed.

Lemma readNumber_minus c d s :
  digitValue c = Some d →
  readNumber (String "-" (String c s)) =
  let '(n, k) := readDigits 0 (String c s) in Some ((- Z.of_N n)%Z, k).
Proof.
  intros Hd. unfold readNumber. rewrite Hd.
  by rewrite bool_decide_eq_true_2.
Qed.

Lemma readNumber_showNumber n k :
  noDigit k → readNumber (showNumber n k) = Some (n, k).
Proof.
  intros Hk. unfold showNumber. destruct n as [|p|p].
  - change (readNumber (String "0" k) = Some (0%Z, k)).
    rewrite (readNumber_digits _ 0) by (by vm_compute).
    cbn [readDigits]. change (digitValue "0") with (Some 0%N). cbv beta iota.
    by rewrite readDigits_noDigit.
  - change (pretty (Z.pos p)) with (pretty_N_go (N.pos p) "").
    rewrite pretty_N_go_append. change ("" +:+ k) with k.
    destruct (pretty_N_go_digit (N.pos p) k) as (c & s & Heq & [d Hd]); [lia|].
    pose proof (readDigits_positive p k Hk) as Hread. rewrite Heq in *.
    by rewrite (readNumber_digits _ _ _ Hd), Hread.
  - change (readNumber (String "-" (pretty_N_go (N.pos p) "" +:+ k))
            = Some (Z.neg p, k)).
    rewrite pretty_N_go_append. change ("" +:+ k) with k.
    destruct (pretty_N_go_digit (N.pos p) k) as (c & s & Heq & [d Hd]); [lia|].
    pose proof (readDigits_positive p k Hk) as Hread. rewrite Heq in *.
    by rewrite (readNumber_minus _ _ _ Hd), Hread.
Qed.

Lemma readTodo_showTodo t k : readTodo (showTodo t k) = Some (t, k).
Proof.
  destruct t as [i n tx d c]. unfold readTodo, showTodo.
  cbn [id todoNo text description completed].
  rewrite expect_char. cbn [mbind option_bind].
  repeat first
    [ rewrite readKey_key | rewrite readQuoted_quote
    | rewrite readNumber_showNumber by done | rewrite readBool_showBool
    | rewrite expect_char
    | progress cbn [mbind option_bind] ].
  done.
Qed.

Lemma readItems_showItems ts : ∀ t k fuel,
  length ts < fuel → readItems fuel (showItems t ts k) = Some (t :: ts, k).
Proof.
  induction ts as [|t' ts IH]; intros t k [|fuel] Hfuel; cbn in Hfuel; try lia.
  - cbn [readItems showItems]. rewrite readTodo_showTodo. cbn [mbind option_bind].
    rewrite bool_decide_eq_false_2 by done. by rewrite bool_decide_eq_true_2.
  - cbn [readItems showItems]. rewrite readTodo_showTodo. cbn [mbind option_bind].
    rewrite bool_decide_eq_true_2 by done. rewrite IH by lia. done.
Qed.

Lemma length_append s k : String.length (s +:+ k) = String.length s + String.length k.
Proof. induction s as [|c s IH]; simpl; [done | by f_equal]. Qed.

Lemma length_quoteChars s k : String.length k ≤ String.length (quoteChars s k).
Proof.
  induction s as [|c s IH]; [done|]. cbn [quoteChars].
  etrans; [apply IH|]. unfold quoteChar. repeat case_bool_decide; cbn; lia.
Qed.

Lemma le_String c k : String.length k ≤ String.length (String c k).
Proof. simpl. lia. Qed.

Lemma le_quote s k : String.length k ≤ String.length (quote s k).
Proof.
  unfold quote. pose proof (length_quoteChars s (String dquote k)).
  simpl in *. lia.
Qed.

Lemma le_key name k : String.length k ≤ String.length (key name k).
Proof. unfold key. etrans; [|apply le_quote]. apply le_String. Qed.

Lemma le_showNumber n k : String.length k ≤ String.length (showNumber n k).
Proof. unfold showNumber. rewrite length_append. lia. Qed.

Lemma le_showBool b k : String.length k ≤ String.length (showBool b k).
Proof. unfold showBool. rewrite length_append. lia. Qed.

Lemma length_showTodo t k : String.length k < String.length (showTodo t k).
Proof.
  unfold showTodo. apply Nat.lt_succ_r.
  repeat (etrans;
    [|first [apply le_key | apply le_quote | apply le_showNumber
            | apply le_showBool | apply le_String]]).
  done.
Qed.

Lemma length_showItems ts : ∀ t k, length ts < String.length (showItems t ts k).
Proof.
  induction ts as [|t' ts IH]; intros t k; cbn [showItems length].
  - pose proof (length_showTodo t (String "]" k)). lia.
  - pose proof (length_showTodo t (String "," (showItems t' ts k))).
    specialize (IH t' k). cbn [String.length] in *. lia.
Qed.

Lemma parse_stringify l : parse (stringify l) = Some l.
Proof.
  destruct l as [|t ts]; [done|].
  unfold stringify, parse. rewrite bool_decide_eq_true_2 by done.
  rewrite bool_decide_eq_false_2 by (by destruct ts).
  rewrite readItems_showItems by apply length_showItems.
  done.
Qed.

Lemma stringify_truthy l : stringify l ≠ "".
Proof. by destruct l. Qed.

End CompactJSONFacts.

Global Instance compactJSON : JSON := {|
  JSON_stringify := CompactJSON.stringify;
  JSON_parse := CompactJSON.parse;
  JSON_parse_stringify := CompactJSONFacts.parse_stringify;
  JSON_stringify_truthy := CompactJSONFacts.stringify_truthy
|}.


(** ** Strings *)

Section string_facts.

Lemma append_cons c (a b : string) : String c a +:+ b = String c (a +:+ b).
Proof. done. Qed.

Lemma prefix_spec (q s : string) :
  String.prefix q s = true ↔ ∃ post, s = q +:+ post.
Proof.
  revert s. induction q as [|c q IH]; intros s.
  { split; [by exists s | by destruct s]. }
  destruct s as [|d s]; [split; [done | by intros [? ?]]|].
  setoid_rewrite append_cons. cbn [String.prefix].
  destruct (ascii_dec c d) as [->|Hne].
  - rewrite IH. split; intros [post Hpost]; exists post; congruence.
  - split; [done | intros [post [=]]; done].
Qed.

Lemma includes_spec (s q : string) :
  includes s q = true ↔ ∃ pre post, s = pre +:+ q +:+ post.
Proof.
  induction s as [|c s IH]; cbn [includes];
    rewrite orb_true_iff, prefix_spec.
  - split.
    + intros [[post Hpost]|?]; [|done]. by exists "", post.
    + intros (pre & post & Heq). left. destruct pre; [|done]. by exists post.
  - rewrite IH. split.
    + intros [[post Hpost]|(pre & post & ->)].
      * by exists "", post.
      * by exists (String c pre), post.
    + intros (pre & post & Heq). destruct pre as [|d pre].
      * left. by exists post.
      * right. rewrite append_cons in Heq. injection Heq as -> ->.
        by exists pre, post.
Qed.

Lemma toLowerCase_append (a b : string) :
  toLowerCase (a +:+ b) = toLowerCase a +:+ toLowerCase b.
Proof.
  induction a as [|c a IH]; [done|].
  rewrite append_cons. cbn [toLowerCase]. by rewrite IH.
Qed.

Lemma toLowerCase_split (t a b : string) :
  toLowerCase t = a +:+ b →
  ∃ a' b', t = a' +:+ b' ∧ toLowerCase a' = a ∧ toLowerCase b' = b.
Proof.
  revert t. induction a as [|c a IH]; intros t Heq.
  { by exists "", t. }
  destruct t as [|d t]; [done|].
  rewrite append_cons in Heq. injection Heq as Hc Heq.
  destruct (IH t Heq) as (a' & b' & -> & <- & <-).
  exists (String d a'), b'. cbn [toLowerCase]. by rewrite Hc.
Qed.

(** The test of [filteredTodos] decides [contains_ignoring_case]. *)
Lemma includes_toLowerCase (title filter : string) :
  includes (toLowerCase title) (toLowerCase filter) = true
  ↔ contains_ignoring_case title filter.
Proof.
  rewrite includes_spec. split.
  - intros (pre & post & Heq).
    apply toLowerCase_split in Heq as (pre' & rest & -> & _ & Heq).
    apply toLowerCase_split in Heq as (mid & post' & -> & Hmid & _).
    by exists pre', mid, post'.
  - intros (pre & mid & post & -> & Hmid).
    exists (toLowerCase pre), (toLowerCase post).
    by rewrite !toLowerCase_append, Hmid.
Qed.

Lemma includes_empty (s : string) : includes s "" = true.
Proof. apply includes_spec. by exists "", s. Qed.

Lemma those_filter (P : Todo → Prop) `{∀ t, Decision (P t)} (l : list Todo) :
  those P l (filter P l).
Proof.
  induction l as [|t l IH]; [constructor|].
  rewrite filter_cons. case_decide; by constructor.
Qed.


End string_facts.

(** ** The reducers both copies share *)

Section store_facts.
Context `{JSON}.

Lemma todos_commit l s : todos (state (commit l s)) = l.
Proof. done. Qed.

(** No item carries the id exactly when [find] returns [undefined]. *)
Lemma find_undefined (p : string) (l : list Todo) :
  list_find (λ todo, id todo = p) l = None ↔ p ∉ id <$> l.
Proof.
  rewrite list_find_None, Forall_forall. split.
  - intros Hall (t & -> & Ht)%list_elem_of_fmap. by apply (Hall t).
  - intros Hnot t Ht Heq. apply Hnot, list_elem_of_fmap. eauto.
Qed.

Lemma find_defined (p : string) (l : list Todo) :
  p ∈ id <$> l → is_Some (list_find (λ todo, id todo = p) l).
Proof.
  intros Hin. destruct (list_find _ l) as [[i t]|] eqn:Hfind; [done|].
  by apply find_undefined in Hfind.
Qed.

Lemma toggleTodo_miss p s : p ∉ id <$> todos (state s) → toggleTodo p s = s.
Proof. intros Hp. unfold toggleTodo. by apply find_undefined in Hp as ->. Qed.

Lemma updateTodoText_miss p t d s :
  p ∉ id <$> todos (state s) → updateTodoText p t d s = s.
Proof. intros Hp. unfold updateTodoText. by apply find_undefined in Hp as ->. Qed.

Lemma toggleTodo_hit p s i t :
  list_find (λ todo, id todo = p) (todos (state s)) = Some (i, t) →
  toggleTodo p s =
  commit (<[i := set_completed (negb (completed t)) t]> (todos (state s))) s.
Proof. intros Hfind. unfold toggleTodo. by rewrite Hfind. Qed.

Lemma updateTodoText_hit p tx d s i t :
  list_find (λ todo, id todo = p) (todos (state s)) = Some (i, t) →
  updateTodoText p tx d s =
  commit (<[i := set_description d (set_text tx t)]> (todos (state s))) s.
Proof. intros Hfind. unfold updateTodoText. by rewrite Hfind. Qed.



Lemma Forall2_insert_found (R : Todo → Todo → Prop) (p : string) l i t t' :
  (∀ u, R u u) →
  list_find (λ todo, id todo = p) l = Some (i, t) →
  R t t' →
  Forall2 R l (<[i := t']> l).
Proof.
  intros Hrefl (Hi & _)%list_find_Some Ht.
  rewrite <-(list_insert_id l i t) at 1 by done.
  apply Forall2_insert; [|done]. by apply Forall_Forall2_diag, Forall_true.
Qed.

Lemma frame_toggleTodo (payload : string) (s : Store) :
  Forall2 (same_but_completed payload)
    (todos (state s)) (todos (state (toggleTodo payload s))).
Proof.
  assert (∀ u, same_but_completed payload u u) as Hrefl by done.
  unfold toggleTodo.
  destruct (list_find (λ todo, id todo = payload) (todos (state s)))
    as [[i t]|] eqn:Hfind.
  - rewrite todos_commit. eapply Forall2_insert_found; [done..|].
    apply list_find_Some in Hfind as (_ & Hid & _). by split_and!.
  - by apply Forall_Forall2_diag, Forall_true.
Qed.

Lemma frame_updateTodoText (payload text' description' : string) (s : Store) :
  Forall2 (same_but_text payload)
    (todos (state s))
    (todos (state (updateTodoText payload text' description' s))).
Proof.
  assert (∀ u, same_but_text payload u u) as Hrefl by done.
  unfold updateTodoText.
  destruct (list_find (λ todo, id todo = payload) (todos (state s)))
    as [[i t]|] eqn:Hfind.
  - rewrite todos_commit. eapply Forall2_insert_found; [done..|].
    apply list_find_Some in Hfind as (_ & Hid & _). by split_and!.
  - by apply Forall_Forall2_diag, Forall_true.
Qed.

Lemma searchQuery_toggleTodo (payload : string) (s : Store) :
  searchQuery (state (toggleTodo payload s)) = searchQuery (state s).
Proof. unfold toggleTodo. by destruct (list_find _ _) as [[??]|]. Qed.

Lemma searchQuery_updateTodoText (payload text' description' : string) s :
  searchQuery (state (updateTodoText payload text' description' s))
  = searchQuery (state s).
Proof. unfold updateTodoText. by destruct (list_find _ _) as [[??]|]. Qed.

End store_facts.

(** ** Numbering *)

Section numbering.

Lemma lookup_renumber (l : list Todo) i :
  TodoSliceSeq.renumber l !! i = set_todoNo (Z.of_nat i + 1) <$> l !! i.
Proof. unfold TodoSliceSeq.renumber. by rewrite list_lookup_imap. Qed.

Lemma numbered_renumber (l : list Todo) : numbered (TodoSliceSeq.renumber l).
Proof.
  intros i t. rewrite lookup_renumber.
  destruct (l !! i); [|done]. by intros [= <-].
Qed.

Lemma renumber_numbered (l : list Todo) :
  numbered l → TodoSliceSeq.renumber l = l.
Proof.
  intros Hl. apply list_eq. intros i. rewrite lookup_renumber.
  destruct (l !! i) as [t|] eqn:Hi; [|done].
  simpl. f_equal. rewrite <-(Hl i t Hi). by destruct t.
Qed.

Lemma renumber_idemp (l : list Todo) :
  TodoSliceSeq.renumber (TodoSliceSeq.renumber l) = TodoSliceSeq.renumber l.
Proof. apply renumber_numbered, numbered_renumber. Qed.

Lemma id_renumber (l : list Todo) : id <$> TodoSliceSeq.renumber l = id <$> l.
Proof.
  apply list_eq. intros i. rewrite !list_lookup_fmap, lookup_renumber.
  by destruct (l !! i).
Qed.

(** A numbered list carries the numbers 1 to n, each once and in order. *)
Lemma numbered_todoNo (l : list Todo) :
  numbered l → todoNo <$> l = (λ i, Z.of_nat i + 1)%Z <$> seq 0 (length l).
Proof.
  intros Hl. apply list_eq. intros i. rewrite !list_lookup_fmap.
  destruct (l !! i) as [t|] eqn:Hi; simpl.
  - rewrite lookup_seq_lt by by eapply lookup_lt_Some.
    simpl. f_equal. by apply Hl.
  - apply lookup_ge_None in Hi. by rewrite lookup_seq_ge.
Qed.

Lemma numbered_Forall2 (l l' : list Todo) :
  Forall2 (λ u u', todoNo u' = todoNo u) l l' → numbered l → numbered l'.
Proof.
  intros Hll' Hl i t' Hi.
  destruct (Forall2_lookup_r _ _ _ _ _ Hll' Hi) as (t & Ht & ->). by apply Hl.
Qed.

End numbering.

(** ** Saving and loading *)

Section persistence.
Context `{JSON}.

Lemma truthy_stringify l : truthy (JSON_stringify l) = true.
Proof. apply bool_decide_eq_true_2, JSON_stringify_truthy. Qed.

Lemma persisted_save l w :
  writable w → persisted (saveToLocalStorage l w) = Some (JSON_stringify l).
Proof.
  intros (ls & -> & Hset). cbn. unfold setItem. rewrite Hset. cbn.
  apply lookup_insert_eq.
Qed.

Lemma persisted_save_cases l w :
  persisted (saveToLocalStorage l w) = Some (JSON_stringify l) ∨
  persisted (saveToLocalStorage l w) = persisted w.
Proof.
  destruct w as [ls|]; [|by right].
  destruct (setItem_throws ls) eqn:Hset.
  - right. cbn. unfold setItem. by rewrite Hset.
  - left. apply persisted_save. by eexists.
Qed.

Lemma readable_save l w : readable w → readable (saveToLocalStorage l w).
Proof.
  intros (ls & -> & Hget). cbn. unfold setItem.
  destruct (setItem_throws ls); by eexists.
Qed.


(** What is read is what was written last. *)
Lemma load_persisted l w :
  readable w → persisted w = Some (JSON_stringify l) →
  loadFromLocalStorage w = l.
Proof.
  intros (ls & -> & Hget) Hl. cbn in Hl. cbn. unfold getItem.
  rewrite Hget, Hl. cbn. by rewrite truthy_stringify, JSON_parse_stringify.
Qed.

Lemma load_save l w :
  readable w → writable w →
  loadFromLocalStorage (saveToLocalStorage l w) = l.
Proof.
  intros Hr Hw. by apply load_persisted; [apply readable_save|apply persisted_save].
Qed.

(** After a save the storage holds the saved list, or what it held: the
    write throws, or there is no window, or nothing can be read. *)
Lemma load_save_cases l w :
  loadFromLocalStorage (saveToLocalStorage l w) = l ∨
  loadFromLocalStorage (saveToLocalStorage l w) = loadFromLocalStorage w.
Proof.
  destruct w as [ls|]; [|by right].
  destruct (setItem_throws ls) eqn:Hset.
  { right. cbn. unfold setItem. by rewrite Hset. }
  destruct (getItem_throws ls) eqn:Hget.
  { right. cbn. unfold setItem, getItem. rewrite Hset. cbn. by rewrite Hget. }
  left. apply load_save; by eexists.
Qed.

Lemma save_save l w :
  saveToLocalStorage l (saveToLocalStorage l w) = saveToLocalStorage l w.
Proof.
  destruct w as [ls|]; [|done]. cbn. unfold setItem.
  destruct (setItem_throws ls) eqn:Hset; cbn; rewrite ?Hset; [done|].
  cbn. by rewrite insert_insert_eq.
Qed.

Lemma commit_commit l s : commit l (commit l s) = commit l s.
Proof. unfold commit. cbn. by rewrite save_save. Qed.

End persistence.

(** ** Display numbers *)

Section display_numbers.
Context `{JSON}.

(** The copy that renumbers leaves the items numbered by position after
    every load, add and delete, whatever the store was: the numbers are
    1 to n in the order of the list, none twice and none left out. *)
Lemma seq_numbered_after (s : Store) :
  let ok s' :=
    numbered (todos (state s')) ∧
    todoNo <$> todos (state s')
    = (λ i, Z.of_nat i + 1)%Z <$> seq 0 (length (todos (state s'))) in
  ok (TodoSliceSeq.initializeTodos s) ∧
  (∀ now t d, ok (TodoSliceSeq.addTodo now t d s)) ∧
  (∀ p, ok (TodoSliceSeq.deleteTodo p s)).
Proof.
  assert (∀ l, numbered (TodoSliceSeq.renumber l) ∧
               todoNo <$> TodoSliceSeq.renumber l
               = (λ i, Z.of_nat i + 1)%Z
                   <$> seq 0 (length (TodoSliceSeq.renumber l))) as Hok.
  { intros l. split; [|apply numbered_todoNo]; apply numbered_renumber. }
  cbv zeta. split; [apply Hok | split; intros; apply Hok].
Qed.

Lemma numbered_toggleTodo p s :
  numbered (todos (state s)) → numbered (todos (state (toggleTodo p s))).
Proof.
  apply numbered_Forall2.
  eapply Forall2_impl; [apply frame_toggleTodo|]. by intros u u' (_ & ? & _).
Qed.

Lemma numbered_updateTodoText p t d s :
  numbered (todos (state s)) →
  numbered (todos (state (updateTodoText p t d s))).
Proof.
  apply numbered_Forall2.
  eapply Forall2_impl; [apply frame_updateTodoText|].
  by intros u u' (_ & ? & _).
Qed.

Lemma seq_numbered_step now a s :
  numbered (todos (state s)) →
  numbered (todos (state (TodoSliceSeq.reducer now a s))).
Proof.
  destruct a; cbn [TodoSliceSeq.reducer]; intros Hs;
    try apply numbered_renumber;
    auto using numbered_toggleTodo, numbered_updateTodoText.
Qed.

Lemma seq_numbered_run acts : ∀ s,
  numbered (todos (state s)) →
  numbered (todos (state (run TodoSliceSeq.reducer acts s))).
Proof.
  induction acts as [|[now a] acts IH]; intros s Hs; [done|].
  apply IH, seq_numbered_step, Hs.
Qed.

End display_numbers.

(** ** Ids *)

Section ids.
Context `{JSON}.

Lemma id_Forall2 (l l' : list Todo) :
  Forall2 (λ u u', id u' = id u) l l' → id <$> l' = id <$> l.
Proof. induction 1 as [|u u' l l' Hu _ IH]; [done|]. cbn. by rewrite Hu, IH. Qed.

Lemma id_toggleTodo p s :
  id <$> todos (state (toggleTodo p s)) = id <$> todos (state s).
Proof.
  apply id_Forall2. eapply Forall2_impl; [apply frame_toggleTodo|].
  by intros u u' (? & _).
Qed.

Lemma id_updateTodoText p t d s :
  id <$> todos (state (updateTodoText p t d s)) = id <$> todos (state s).
Proof.
  apply id_Forall2. eapply Forall2_impl; [apply frame_updateTodoText|].
  by intros u u' (? & _).
Qed.

(** [filter] with a test on the id. *)
Lemma id_filter (p : string) (l : list Todo) :
  id <$> filter (λ todo, id todo ≠ p) l = filter (λ i, i ≠ p) (id <$> l).
Proof.
  induction l as [|t l IH]; [done|].
  rewrite fmap_cons, !filter_cons. case_decide; cbn; by rewrite IH.
Qed.

Lemma filter_absent (p : string) (l : list Todo) :
  p ∉ id <$> l → filter (λ todo, id todo ≠ p) l = l.
Proof.
  intros Hp. induction l as [|t l IH]; [done|].
  rewrite fmap_cons, not_elem_of_cons in Hp. destruct Hp as [Hne Hp].
  rewrite filter_cons, decide_True by done. by rewrite IH.
Qed.

Lemma absent_filter (p : string) (l : list Todo) :
  p ∉ id <$> filter (λ todo, id todo ≠ p) l.
Proof.
  rewrite list_elem_of_fmap. intros (t & -> & Ht).
  by apply list_elem_of_filter in Ht as [? _].
Qed.

Lemma NoDup_id_filter (p : string) (l : list Todo) :
  NoDup (id <$> l) → NoDup (id <$> filter (λ todo, id todo ≠ p) l).
Proof.
  intros Hl. rewrite id_filter. eapply sublist_NoDup; [done|].
  apply sublist_filter.
Qed.

Lemma distinct_ids_commit l s :
  distinct_ids s → NoDup (id <$> l) → distinct_ids (commit l s).
Proof.
  intros [_ Hload] Hl. split; [done|]. cbn [commit window].
  by destruct (load_save_cases l (window s)) as [-> | ->].
Qed.

Lemma distinct_ids_toggleTodo p s :
  distinct_ids s → distinct_ids (toggleTodo p s).
Proof.
  intros Hs. pose proof (id_toggleTodo p s) as Hid. revert Hid.
  unfold toggleTodo. destruct (list_find _ _) as [[i t]|]; [|done].
  rewrite todos_commit. intros Hid. apply distinct_ids_commit; [done|].
  rewrite Hid. apply Hs.
Qed.

Lemma distinct_ids_updateTodoText p t d s :
  distinct_ids s → distinct_ids (updateTodoText p t d s).
Proof.
  intros Hs. pose proof (id_updateTodoText p t d s) as Hid. revert Hid.
  unfold updateTodoText. destruct (list_find _ _) as [[i u]|]; [|done].
  rewrite todos_commit. intros Hid. apply distinct_ids_commit; [done|].
  rewrite Hid. apply Hs.
Qed.

Lemma NoDup_push (l : list Todo) (t : Todo) :
  NoDup (id <$> l) → id t ∉ id <$> l → NoDup (id <$> l ++ [t]).
Proof.
  intros Hl Ht. rewrite fmap_app. apply NoDup_app. split_and!; [done| |].
  - intros i Hi [->|[]%elem_of_nil]%elem_of_cons. done.
  - apply NoDup_singleton.
Qed.


Lemma seq_distinct_ids_run acts : ∀ s,
  distinct_ids s →
  fresh_run TodoSliceSeq.reducer pretty acts s →
  distinct_ids (run TodoSliceSeq.reducer acts s).
Proof.
  induction acts as [|[now a] acts IH]; intros s Hs; [done|].
  intros [Hfresh Hrun]. apply IH; [|done]. clear IH Hrun.
  destruct a; cbn [TodoSliceSeq.reducer fst snd].
  - split; [|apply Hs]. cbn. rewrite id_renumber. apply Hs.
  - apply distinct_ids_commit; [done|]. rewrite id_renumber.
    apply NoDup_push; [apply Hs | done].
  - by apply distinct_ids_toggleTodo.
  - apply distinct_ids_commit; [done|]. rewrite id_renumber.
    apply NoDup_id_filter, Hs.
  - by apply distinct_ids_updateTodoText.
  - done.
Qed.

End ids.

(** ** Deleting *)

Section deleting.
Context `{JSON}.

Lemma filter_id_idemp (p : string) (l : list Todo) :
  filter (λ todo, id todo ≠ p) (filter (λ todo, id todo ≠ p) l)
  = filter (λ todo, id todo ≠ p) l.
Proof. apply filter_absent, absent_filter. Qed.

Lemma filter_renumber_idemp (p : string) (l : list Todo) :
  filter (λ todo, id todo ≠ p)
    (TodoSliceSeq.renumber (filter (λ todo, id todo ≠ p) l))
  = TodoSliceSeq.renumber (filter (λ todo, id todo ≠ p) l).
Proof. apply filter_absent. rewrite id_renumber. apply absent_filter. Qed.

Lemma slice_deleteTodo_absent p s :
  p ∉ id <$> todos (state s) →
  state (TodoSlice.deleteTodo p s) = state s.
Proof.
  intros Hp. unfold TodoSlice.deleteTodo. cbn.
  rewrite filter_absent by done. by destruct s as [[??]?].
Qed.

Lemma slice_deleteTodo_idemp p s :
  TodoSlice.deleteTodo p (TodoSlice.deleteTodo p s) = TodoSlice.deleteTodo p s.
Proof.
  unfold TodoSlice.deleteTodo at 1 2. rewrite todos_commit, filter_id_idemp.
  apply commit_commit.
Qed.

Lemma seq_deleteTodo_absent p s :
  numbered (todos (state s)) →
  p ∉ id <$> todos (state s) →
  state (TodoSliceSeq.deleteTodo p s) = state s.
Proof.
  intros Hs Hp. unfold TodoSliceSeq.deleteTodo. cbn.
  rewrite filter_absent, renumber_numbered by done. by destruct s as [[??]?].
Qed.

Lemma seq_deleteTodo_idemp p s :
  TodoSliceSeq.deleteTodo p (TodoSliceSeq.deleteTodo p s)
  = TodoSliceSeq.deleteTodo p s.
Proof.
  unfold TodoSliceSeq.deleteTodo at 1 2.
  rewrite todos_commit, filter_renumber_idemp, renumber_idemp.
  apply commit_commit.
Qed.

End deleting.

(** ** Sessions: what a reload finds *)

Section sessions.
Context `{JSON}.








Lemma seq_saved_numbered_commit p0 l s :
  seq_saved_numbered p0 s → numbered l → seq_saved_numbered p0 (commit l s).
Proof.
  intros [_ Hsaved] Hl. split; [done|]. cbn [commit window].
  destruct (persisted_save_cases l (window s)) as [-> | ->]; eauto.
Qed.

Lemma seq_saved_numbered_step p0 now a s :
  seq_saved_numbered p0 s →
  seq_saved_numbered p0 (TodoSliceSeq.reducer now a s).
Proof.
  intros Hs. pose proof Hs as [Hnum Hsaved].
  destruct a as [|t d|p|p|i t d|q]; cbn [TodoSliceSeq.reducer].
  - split; [apply numbered_renumber | done].
  - apply seq_saved_numbered_commit; [done | apply numbered_renumber].
  - pose proof (numbered_toggleTodo p s Hnum) as Hnum'. revert Hnum'.
    unfold toggleTodo. destruct (list_find _ _) as [[??]|]; [|done].
    rewrite todos_commit. by apply seq_saved_numbered_commit.
  - apply seq_saved_numbered_commit; [done | apply numbered_renumber].
  - pose proof (numbered_updateTodoText i t d s Hnum) as Hnum'. revert Hnum'.
    unfold updateTodoText. destruct (list_find _ _) as [[??]|]; [|done].
    rewrite todos_commit. by apply seq_saved_numbered_commit.
  - done.
Qed.

(** Whatever the copy that renumbers writes, along a run from the initial
    state, is the serialization of a list numbered by position. *)
Lemma seq_saves_numbered acts w :
  seq_saved_numbered (persisted w)
    (run TodoSliceSeq.reducer acts {| state := initialState; window := w |}).
Proof.
  assert (seq_saved_numbered (persisted w)
            {| state := initialState; window := w |}) as Hs0.
  { split; [by intros i t | by left]. }
  revert Hs0. generalize {| state := initialState; window := w |}.
  induction acts as [|[now a] acts IH]; intros s Hs; [done|].
  apply IH, seq_saved_numbered_step, Hs.
Qed.

End sessions.

(** * The claims *)

(** C1, on src/store/todoSlice.ts.  Two items are added and the first is
    deleted: the one that remains keeps the number 2 at position 1, the
    item added next is given the number 2 as well, and a reload brings both
    back with these numbers.  The items of this copy of the slice are not
    numbered by position after delete, add and load. *)
Theorem slice_delete_leaves_gap :
  let s2 := run TodoSlice.reducer
              [("a", AddTodo "Buy milk" ""); ("b", AddTodo "Call Bob" "")]
              {| state := initialState; window := fresh_browser |} in
  let s3 := TodoSlice.deleteTodo "a" s2 in
  let s4 := TodoSlice.addTodo "c" "Pay rent" "" s3 in
  todoNo <$> todos (state s2) = [1; 2]%Z ∧
  todoNo <$> todos (state s3) = [2]%Z ∧
  ¬ numbered (todos (state s3)) ∧
  todoNo <$> todos (state s4) = [2; 2]%Z ∧
  todoNo <$> todos (state (TodoSlice.initializeTodos (restart s4))) = [2; 2]%Z.
Proof.
  split_and!; try by vm_compute.
  intros Hnum. by specialize (Hnum 0 (mkTodo "b" 2 "Call Bob" "" false) eq_refl).
Qed.

Section claims.
Context `{JSON}.

(** C2.  Adding through [handleAddTodo] with a title that is empty once
    trimmed dispatches nothing: the store, and with it the number of
    items, is what it was, whichever copy of the slice is behind.  This
    holds in particular for the title "" with the description "x". *)
Theorem add_blank_title_noop (title description : string) (s : Store) :
  trim title = "" →
  (∀ nanoid,
     dispatch TodoSlice.reducer nanoid (handleAddTodo title description) s = s) ∧
  (∀ now,
     dispatch TodoSliceSeq.reducer now (handleAddTodo title description) s = s) ∧
  (∀ nanoid,
     length (todos (state
       (dispatch TodoSlice.reducer nanoid (handleAddTodo "" "x") s)))
     = length (todos (state s))) ∧
  (∀ now,
     length (todos (state
       (dispatch TodoSliceSeq.reducer now (handleAddTodo "" "x") s)))
     = length (todos (state s))).
Proof.
  intros Hblank. unfold handleAddTodo. rewrite Hblank. by split_and!.
Qed.

(** The guard is in the handler: the reducers append whatever title they
    are given, the empty one too. *)
Lemma addTodo_takes_any_title (nanoid : string) (now : Z) (s : Store) :
  length (todos (state (TodoSlice.addTodo nanoid "" "x" s)))
  = S (length (todos (state s))) ∧
  length (todos (state (TodoSliceSeq.addTodo now "" "x" s)))
  = S (length (todos (state s))).
Proof.
  unfold TodoSlice.addTodo, TodoSliceSeq.addTodo, TodoSliceSeq.renumber.
  rewrite !todos_commit, length_imap, !length_app. cbn. lia.
Qed.

(** C4, amended.  Saving an edit through [handleSaveEdit] does the same on
    both copies of the slice.  It leaves the store as it is when no item
    has the id, and also when the title is empty once trimmed.  Otherwise
    the first item with the id gets the trimmed title and the trimmed
    description, and the list is saved. *)
Theorem save_edit_spec (editingTodo : Todo) (nanoid : string) (now : Z)
    (s : Store) :
  let s' := dispatch TodoSlice.reducer nanoid
              (handleSaveEdit (Some editingTodo)) s in
  dispatch TodoSliceSeq.reducer now (handleSaveEdit (Some editingTodo)) s = s' ∧
  (id editingTodo ∉ id <$> todos (state s) → s' = s) ∧
  (trim (text editingTodo) = "" → s' = s) ∧
  (trim (text editingTodo) ≠ "" →
   ∀ i t,
     todos (state s) !! i = Some t → id t = id editingTodo →
     (∀ j u, todos (state s) !! j = Some u → j < i → id u ≠ id editingTodo) →
     s' = commit (<[i := set_description (trim (description editingTodo))
                           (set_text (trim (text editingTodo)) t)]>
                    (todos (state s))) s).
Proof.
  cbv zeta. unfold handleSaveEdit, truthy.
  destruct (decide (trim (text editingTodo) = "")) as [Hblank|Hblank].
  - rewrite bool_decide_eq_false_2 by auto. by split_and!.
  - rewrite bool_decide_eq_true_2 by auto. cbn [dispatch].
    split_and!; [done| |done|].
    + apply updateTodoText_miss.
    + intros _ i t Hi Hid Hfirst. apply updateTodoText_hit.
      by apply list_find_Some.
Qed.

(** C5, amended.  With a storage that takes writes, after an add and after
    a delete (on either copy of the slice), and after a toggle or an update
    whose id some item has, the text kept under 'todos' is the
    serialization of the items the store then has.  A toggle or an update
    whose id no item has changes nothing and writes nothing. *)
Theorem write_through (s : Store) :
  writable (window s) →
  let saved s' :=
    persisted (window s') = Some (JSON_stringify (todos (state s'))) in
  (∀ nanoid t d, saved (TodoSlice.addTodo nanoid t d s)) ∧
  (∀ now t d, saved (TodoSliceSeq.addTodo now t d s)) ∧
  (∀ p, saved (TodoSlice.deleteTodo p s)) ∧
  (∀ p, saved (TodoSliceSeq.deleteTodo p s)) ∧
  (∀ p, p ∈ id <$> todos (state s) → saved (toggleTodo p s)) ∧
  (∀ p t d, p ∈ id <$> todos (state s) → saved (updateTodoText p t d s)) ∧
  (∀ p, p ∉ id <$> todos (state s) → toggleTodo p s = s) ∧
  (∀ p t d, p ∉ id <$> todos (state s) → updateTodoText p t d s = s).
Proof.
  intros Hw. cbv zeta. split_and!; intros.
  - by apply persisted_save.
  - by apply persisted_save.
  - by apply persisted_save.
  - by apply persisted_save.
  - destruct (find_defined p (todos (state s))) as [[i u] Hfind]; [done|].
    rewrite (toggleTodo_hit _ _ _ _ Hfind). by apply persisted_save.
  - destruct (find_defined p (todos (state s))) as [[i u] Hfind]; [done|].
    rewrite (updateTodoText_hit _ _ _ _ _ _ Hfind). by apply persisted_save.
  - by apply toggleTodo_miss.
  - by apply updateTodoText_miss.
Qed.



(** C8.  On src/store/todoSlice.ts [deleteTodo] keeps the items with
    another id, in their order, and no others; when no item has the id the
    state is what it was; and a second [deleteTodo] with the same id
    leaves the store, storage included, as the first left it.  The copy
    that renumbers keeps the same items and numbers them anew; deleting an
    id that no item has leaves the state as it was in every store that a
    run from the initial state reaches; and the second of two deletes
    changes nothing there either. *)
Theorem delete_spec (payload : string) (s : Store) :
  those (λ todo, id todo ≠ payload)
    (todos (state s)) (todos (state (TodoSlice.deleteTodo payload s))) ∧
  (payload ∉ id <$> todos (state s) →
   state (TodoSlice.deleteTodo payload s) = state s) ∧
  TodoSlice.deleteTodo payload (TodoSlice.deleteTodo payload s)
  = TodoSlice.deleteTodo payload s ∧
  (∃ kept,
     those (λ todo, id todo ≠ payload) (todos (state s)) kept ∧
     todos (state (TodoSliceSeq.deleteTodo payload s))
     = TodoSliceSeq.renumber kept) ∧
  (∀ w acts,
     s = run TodoSliceSeq.reducer acts {| state := initialState; window := w |} →
     payload ∉ id <$> todos (state s) →
     state (TodoSliceSeq.deleteTodo payload s) = state s) ∧
  TodoSliceSeq.deleteTodo payload (TodoSliceSeq.deleteTodo payload s)
  = TodoSliceSeq.deleteTodo payload s.
Proof.
  split_and!.
  - apply those_filter.
  - apply slice_deleteTodo_absent.
  - apply slice_deleteTodo_idemp.
  - eexists. split; [apply those_filter | done].
  - intros w acts -> Habsent. apply seq_deleteTodo_absent; [|done].
    by apply seq_numbered_run.
  - apply seq_deleteTodo_idemp.
Qed.



(** C10.  [toggleTodo] and [updateTodoText] keep the number of items and
    their order, and item by item the id and the number.  [toggleTodo]
    also keeps title and description, and keeps the flag of every item
    with another id; [updateTodoText] also keeps the flag, and keeps title
    and description of every item with another id.  Neither touches the
    search query. *)
Theorem toggle_update_frame (payload text' description' : string) (s : Store) :
  Forall2 (same_but_completed payload)
    (todos (state s)) (todos (state (toggleTodo payload s))) ∧
  searchQuery (state (toggleTodo payload s)) = searchQuery (state s) ∧
  Forall2 (same_but_text payload)
    (todos (state s))
    (todos (state (updateTodoText payload text' description' s))) ∧
  searchQuery (state (updateTodoText payload text' description' s))
  = searchQuery (state s).
Proof.
  split_and!.
  - apply frame_toggleTodo.
  - apply searchQuery_toggleTodo.
  - apply frame_updateTodoText.
  - apply searchQuery_updateTodoText.
Qed.

End claims.

(** ** The definitions and the claims on concrete inputs *)

Example trim_examples :
  trim "  Buy milk  " = "Buy milk" ∧ trim "   " = "" ∧ trim "a  b" = "a  b" ∧
  trim (String "009" (String "160" "x")) = "x".
Proof. split_and!; by vm_compute. Qed.

Example lowerChar_examples :
  lowerChar "A" = "a"%char ∧ lowerChar "z" = "z"%char ∧
  lowerChar "192" = "224"%char ∧ lowerChar "215" = "215"%char ∧
  lowerChar "222" = "254"%char ∧ lowerChar "223" = "223"%char.
Proof. split_and!; by vm_compute. Qed.

Example includes_examples :
  includes "buy milk" "y m" = true ∧ includes "buy milk" "" = true ∧
  includes "" "" = true ∧ includes "buy milk" "bob" = false ∧
  includes "Buy milk" "buy" = false.
Proof. split_and!; by vm_compute. Qed.

Example filter_ignores_case :
  filteredTodos {| todos := [mkTodo "1" 1 "buy milk" "" false;
                             mkTodo "2" 2 "Call Bob" "" false];
                   searchQuery := "Buy" |}
  = [mkTodo "1" 1 "buy milk" "" false].
Proof. by vm_compute. Qed.

Lemma add_blank_title_noop_witness :
  trim "   " = "" ∧
  dispatch TodoSlice.reducer "c" (handleAddTodo "   " "x") two_items
  = two_items.
Proof.
  split; [reflexivity|].
  exact (proj1 (add_blank_title_noop "   " "x" two_items eq_refl) "c").
Defined.



(** C4 as stated fails.  Through [handleSaveEdit] an edit whose title is
    blank replaces nothing although an item has the id; and the reducer
    [updateTodoText] alone stores the title and the description it is
    given, untrimmed. *)
Lemma blank_title_edit_is_dropped :
  let s := {| state := {| todos := [milk]; searchQuery := "" |};
              window := fresh_browser |} in
  todos (state (dispatch TodoSlice.reducer "c"
                  (handleSaveEdit (Some (mkTodo "a" 1 "  " "soon" false))) s))
  = [milk] ∧
  [milk] ≠ [mkTodo "a" 1 (trim "  ") (trim "soon") false] ∧
  todos (state (updateTodoText "a" " Buy tea " " soon " s))
  = [mkTodo "a" 1 " Buy tea " " soon " false] ∧
  [mkTodo "a" 1 " Buy tea " " soon " false]
  ≠ [mkTodo "a" 1 (trim " Buy tea ") (trim " soon ") false].
Proof. split_and!; by vm_compute. Qed.

Lemma save_edit_spec_witness :
  trim " Buy oat milk " ≠ "" ∧
  dispatch TodoSlice.reducer "c"
    (handleSaveEdit (Some (mkTodo "a" 1 " Buy oat milk " " today " false)))
    two_items
  = commit [mkTodo "a" 1 "Buy oat milk" "today" false; bob] two_items.
Proof.
  assert (trim " Buy oat milk " ≠ "") as Hne by by vm_compute.
  split; [exact Hne|].
  refine (proj2 (proj2 (proj2
    (save_edit_spec (mkTodo "a" 1 " Buy oat milk " " today " false)
       "c" 0%Z two_items))) Hne 0 milk eq_refl eq_refl _).
  intros j u _ Hj. lia.
Defined.

(** C5 as stated fails.  On a fresh browser the store is initialized and an
    id that no item has is toggled: nothing is written, and the key holds
    no serialization of the items. *)
Lemma toggle_miss_writes_nothing :
  let s := TodoSlice.initializeTodos
             {| state := initialState; window := fresh_browser |} in
  writable (window s) ∧
  persisted (window (toggleTodo "x" s)) = None ∧
  persisted (window (toggleTodo "x" s))
  ≠ Some (JSON_stringify (todos (state (toggleTodo "x" s)))).
Proof. split_and!; [by eexists | done | done]. Qed.

Lemma write_through_witness :
  writable (window two_items) ∧
  persisted (window (toggleTodo "b" two_items))
  = Some (JSON_stringify (todos (state (toggleTodo "b" two_items)))).
Proof.
  assert (writable (window two_items)) as Hw by by eexists.
  split; [exact Hw|].
  refine (proj1 (proj2 (proj2 (proj2 (proj2
    (write_through two_items Hw))))) "b" _).
  apply (bool_decide_unpack _). vm_compute. exact I.
Defined.



Lemma delete_spec_witness :
  ("zzz" ∉ id <$> todos (state two_items)) ∧
  state (TodoSlice.deleteTodo "zzz" two_items) = state two_items.
Proof.
  assert ("zzz" ∉ id <$> todos (state two_items)) as Habsent.
  { apply (bool_decide_unpack _). vm_compute. exact I. }
  split; [exact Habsent|].
  exact (proj1 (proj2 (delete_spec "zzz" two_items)) Habsent).
Defined.


(** The scenario of the specification on the copy that renumbers: two
    adds, the first item deleted, the second toggled, then a reload. *)
Example seq_scenario :
  let s2 := run TodoSliceSeq.reducer
              [(1700000000000%Z, AddTodo "Buy milk" "");
               (1700000000001%Z, AddTodo "Call Bob" "re: project")]
              {| state := initialState; window := fresh_browser |} in
  let s3 := TodoSliceSeq.deleteTodo "1700000000000" s2 in
  let s4 := toggleTodo "1700000000001" s3 in
  todoNo <$> todos (state s2) = [1; 2]%Z ∧
  text <$> todos (state s2) = ["Buy milk"; "Call Bob"] ∧
  todos (state s3)
  = [mkTodo "1700000000001" 1 "Call Bob" "re: project" false] ∧
  todos (state (TodoSliceSeq.initializeTodos (restart s4)))
  = [mkTodo "1700000000001" 1 "Call Bob" "re: project" true].
Proof. split_and!; by vm_compute. Qed.

(** * More of the code *)

(** ** The search query *)

Lemma run_cons {E} (reducer : E → Action → Store → Store) e a acts s :
  run reducer ((e, a) :: acts) s = run reducer acts (reducer e a s).
Proof. done. Qed.

Lemma lastQuery_cons {E} (e : E) a acts q0 :
  lastQuery ((e, a) :: acts) q0
  = lastQuery acts (if a is SetSearchQuery v then v else q0).
Proof. done. Qed.

Section query.
Context `{JSON}.

Lemma toggleTodo_modify p s :
  toggleTodo p s = modify p (λ t, set_completed (negb (completed t)) t) s.
Proof. done. Qed.

Lemma updateTodoText_modify p tx d s :
  updateTodoText p tx d s
  = modify p (λ t, set_description d (set_text tx t)) s.
Proof. done. Qed.

Lemma searchQuery_slice_step nanoid a s :
  searchQuery (state (TodoSlice.reducer nanoid a s))
  = if a is SetSearchQuery v then v else searchQuery (state s).
Proof.
  destruct a; cbn [TodoSlice.reducer]; try done.
  - apply searchQuery_toggleTodo.
  - apply searchQuery_updateTodoText.
Qed.

Lemma searchQuery_seq_step now a s :
  searchQuery (state (TodoSliceSeq.reducer now a s))
  = if a is SetSearchQuery v then v else searchQuery (state s).
Proof.
  destruct a; cbn [TodoSliceSeq.reducer]; try done.
  - apply searchQuery_toggleTodo.
  - apply searchQuery_updateTodoText.
Qed.

(** X1.  On both copies of the slice the search query after a run is the
    payload of the last [setSearchQuery] of the run, and the query the run
    started with when it has none: no other reducer writes [searchQuery]. *)
Theorem searchQuery_is_last_set :
  (∀ acts s,
     searchQuery (state (run TodoSlice.reducer acts s))
     = lastQuery acts (searchQuery (state s))) ∧
  (∀ acts s,
     searchQuery (state (run TodoSliceSeq.reducer acts s))
     = lastQuery acts (searchQuery (state s))).
Proof.
  split; intros acts; induction acts as [|[e a] acts IH]; intros s; try done.
  - by rewrite run_cons, lastQuery_cons, IH, searchQuery_slice_step.
  - by rewrite run_cons, lastQuery_cons, IH, searchQuery_seq_step.
Qed.

Lemma modify_setSearchQuery p f q s :
  modify p f (setSearchQuery q s) = setSearchQuery q (modify p f s).
Proof.
  unfold modify. cbn. by destruct (list_find _ _) as [[??]|].
Qed.

(** X2.  [setSearchQuery] commutes with every action that is not a
    [setSearchQuery]: the store, storage included, is the same whether the
    query is set before the action or after it, on both copies of the slice. *)
Theorem setSearchQuery_commutes (q : string) (a : Action) (s : Store) :
  (∀ v, a ≠ SetSearchQuery v) →
  (∀ nanoid,
     TodoSlice.reducer nanoid a (setSearchQuery q s)
     = setSearchQuery q (TodoSlice.reducer nanoid a s)) ∧
  (∀ now,
     TodoSliceSeq.reducer now a (setSearchQuery q s)
     = setSearchQuery q (TodoSliceSeq.reducer now a s)).
Proof.
  intros Ha. destruct a as [|t d|p|p|i t d|v]; try by destruct (Ha v).
  - done.
  - done.
  - split; intros; cbn; rewrite !toggleTodo_modify; apply modify_setSearchQuery.
  - done.
  - split; intros; cbn; rewrite !updateTodoText_modify;
      apply modify_setSearchQuery.
Qed.

End query.

(** ** What a run leaves of the browser *)

Section browser_frame.
Context `{JSON}.

(** *** The storage outside the key *)

Lemma same_but_todos_key_refl w : same_but_todos_key w w.
Proof. by destruct w. Qed.

Lemma same_but_todos_key_trans w1 w2 w3 :
  same_but_todos_key w1 w2 → same_but_todos_key w2 w3 →
  same_but_todos_key w1 w3.
Proof.
  destruct w1 as [l1|], w2 as [l2|], w3 as [l3|]; try done.
  intros (Hg & Hs & Hk) (Hg' & Hs' & Hk'). split_and!; try congruence.
  intros k Hne. by rewrite Hk', Hk.
Qed.

Lemma same_but_todos_key_save l w :
  same_but_todos_key w (saveToLocalStorage l w).
Proof.
  destruct w as [ls|]; [|done]. cbn. unfold setItem.
  destruct (setItem_throws ls) eqn:Hset; cbn; [done|].
  split_and!; [done..|]. intros k Hne. by rewrite lookup_insert_ne.
Qed.

Lemma same_but_todos_key_modify p f s :
  same_but_todos_key (window s) (window (modify p f s)).
Proof.
  unfold modify. destruct (list_find _ _) as [[??]|].
  - apply same_but_todos_key_save.
  - apply same_but_todos_key_refl.
Qed.

Lemma same_but_todos_key_slice nanoid a s :
  same_but_todos_key (window s) (window (TodoSlice.reducer nanoid a s)).
Proof.
  destruct a; cbn [TodoSlice.reducer];
    try apply same_but_todos_key_refl; try apply same_but_todos_key_save.
  - rewrite toggleTodo_modify. apply same_but_todos_key_modify.
  - rewrite updateTodoText_modify. apply same_but_todos_key_modify.
Qed.

Lemma same_but_todos_key_seq now a s :
  same_but_todos_key (window s) (window (TodoSliceSeq.reducer now a s)).
Proof.
  destruct a; cbn [TodoSliceSeq.reducer];
    try apply same_but_todos_key_refl; try apply same_but_todos_key_save.
  - rewrite toggleTodo_modify. apply same_but_todos_key_modify.
  - rewrite updateTodoText_modify. apply same_but_todos_key_modify.
Qed.

(** X3.  A run of either copy changes nothing of the browser but what is
    kept under the key 'todos': there is a storage after the run exactly when
    there was one, it throws on reads and on writes as it did, and every
    other key holds what it held. *)
Theorem storage_frame :
  (∀ acts s,
     same_but_todos_key (window s) (window (run TodoSlice.reducer acts s))) ∧
  (∀ acts s,
     same_but_todos_key (window s) (window (run TodoSliceSeq.reducer acts s))).
Proof.
  split; intros acts; induction acts as [|[e a] acts IH]; intros s;
    try apply same_but_todos_key_refl; rewrite run_cons;
    (eapply same_but_todos_key_trans; [|apply IH]).
  - apply same_but_todos_key_slice.
  - apply same_but_todos_key_seq.
Qed.

(** *** The state does not wait for the storage *)

Lemma state_modify p f s w :
  state (modify p f {| state := state s; window := w |})
  = state (modify p f s).
Proof. unfold modify. cbn. by destruct (list_find _ _) as [[??]|]. Qed.

(** X4.  But for [initializeTodos], the state an action leaves depends on
    the state it finds only: with another browser behind, or none, each
    reducer of either copy computes the same state.  A save that fails is
    not seen by the state. *)
Theorem state_independent_of_storage (a : Action) (s : Store) (w : Window) :
  a ≠ InitializeTodos →
  (∀ nanoid,
     state (TodoSlice.reducer nanoid a {| state := state s; window := w |})
     = state (TodoSlice.reducer nanoid a s)) ∧
  (∀ now,
     state (TodoSliceSeq.reducer now a {| state := state s; window := w |})
     = state (TodoSliceSeq.reducer now a s)).
Proof.
  intros Ha. destruct a as [|t d|p|p|i t d|v]; try done.
  - split; intros; cbn; rewrite !toggleTodo_modify; apply state_modify.
  - split; intros; cbn; rewrite !updateTodoText_modify; apply state_modify.
Qed.

End browser_frame.

(** ** The two copies of the slice side by side *)

Section largest_number.
Context `{JSON}.

(** *** Numbers *)

Lemma same_but_todoNo_refl u : same_but_todoNo u u.
Proof. done. Qed.

Lemma Forall2_same_refl (l : list Todo) : Forall2 same_but_todoNo l l.
Proof. by apply Forall_Forall2_diag, Forall_true. Qed.

Lemma Forall2_same_renumber (l : list Todo) :
  Forall2 same_but_todoNo l (TodoSliceSeq.renumber l).
Proof.
  apply Forall2_same_length_lookup. split.
  { unfold TodoSliceSeq.renumber. by rewrite length_imap. }
  intros i u u' Hu. rewrite lookup_renumber, Hu. by intros [= <-].
Qed.

Lemma renumber_same (l l' : list Todo) :
  Forall2 same_but_todoNo l l' →
  TodoSliceSeq.renumber l' = TodoSliceSeq.renumber l.
Proof.
  intros Hll'. apply list_eq. intros i. rewrite !lookup_renumber.
  destruct (l' !! i) as [u'|] eqn:Hu'.
  - destruct (Forall2_lookup_r _ _ _ _ _ Hll' Hu') as (u & -> & Huu').
    destruct u, u', Huu' as (? & ? & ? & ?); cbn in *. by simplify_eq.
  - apply lookup_ge_None in Hu'. rewrite <-(Forall2_length _ _ _ Hll') in Hu'.
    by apply lookup_ge_None in Hu' as ->.
Qed.

Lemma same_numbered (l l' : list Todo) :
  Forall2 same_but_todoNo l l' → numbered l' →
  l' = TodoSliceSeq.renumber l.
Proof.
  intros Hll' Hl'. by rewrite <-(renumber_same l l'), renumber_numbered.
Qed.

Lemma numbered_push (l : list Todo) (t : Todo) :
  numbered l → todoNo t = (Z.of_nat (length l) + 1)%Z → numbered (l ++ [t]).
Proof.
  intros Hl Ht i u Hi. apply lookup_app_Some in Hi as [Hi|[Hlen Hi]].
  - by apply Hl.
  - apply list_lookup_singleton_Some in Hi as [Hi <-].
    rewrite Ht. f_equal. lia.
Qed.

Lemma numbered_insert (l : list Todo) i t t' :
  numbered l → l !! i = Some t → todoNo t' = todoNo t →
  numbered (<[i := t']> l).
Proof.
  intros Hl Hi Ht j u Hj.
  destruct (decide (i = j)) as [<-|Hne].
  - rewrite list_lookup_insert_eq in Hj by by eapply lookup_lt_Some.
    injection Hj as <-. rewrite Ht. by apply Hl.
  - rewrite list_lookup_insert_ne in Hj by done. by apply Hl.
Qed.

Lemma foldr_max_bound (n : Z) (ns : list Z) (x : Z) :
  x ∈ n :: ns → (x ≤ foldr Z.max n ns)%Z.
Proof.
  induction ns as [|v ns IH]; intros Hx.
  - apply list_elem_of_singleton in Hx as ->. done.
  - cbn. apply elem_of_cons in Hx as [->|[->|Hx]%elem_of_cons].
    + assert (n ≤ foldr Z.max n ns)%Z by (apply IH; by left). lia.
    + lia.
    + assert (x ≤ foldr Z.max n ns)%Z by (apply IH; by right). lia.
Qed.

Lemma foldr_max_attained (n : Z) (ns : list Z) : foldr Z.max n ns ∈ n :: ns.
Proof.
  induction ns as [|v ns IH]; [by left|]. cbn.
  destruct (Z.max_spec v (foldr Z.max n ns)) as [[_ ->]|[_ ->]].
  - apply elem_of_cons in IH as [->|Hin]; [by left | by do 2 right].
  - right. by left.
Qed.

Lemma maxTodoNo_bound (l : list Todo) (t : Todo) :
  t ∈ l → (todoNo t ≤ TodoSliceSeq.maxTodoNo l)%Z.
Proof.
  intros Ht. apply (list_elem_of_fmap_2 todoNo) in Ht.
  unfold TodoSliceSeq.maxTodoNo. destruct (todoNo <$> l) as [|n ns].
  - by apply elem_of_nil in Ht.
  - by apply foldr_max_bound.
Qed.

Lemma maxTodoNo_numbered (l : list Todo) :
  numbered l → TodoSliceSeq.maxTodoNo l = Z.of_nat (length l).
Proof.
  intros Hl. destruct (decide (l = [])) as [->|Hne]; [done|].
  apply Z.le_antisymm.
  - unfold TodoSliceSeq.maxTodoNo.
    destruct (todoNo <$> l) as [|n ns] eqn:Hnos; [lia|].
    pose proof (foldr_max_attained n ns) as Hin. rewrite <-Hnos in Hin.
    apply list_elem_of_fmap in Hin as (t & -> & Ht).
    apply list_elem_of_lookup in Ht as [i Hi]. rewrite (Hl i t Hi).
    apply lookup_lt_Some in Hi. lia.
  - destruct (last l) as [t|] eqn:Hlast; [|by apply last_None in Hlast].
    rewrite last_lookup in Hlast. pose proof (Hl _ _ Hlast) as Ht.
    etrans; [|apply (maxTodoNo_bound l t)].
    + rewrite Ht. destruct l; [done|]. cbn. lia.
    + apply list_elem_of_lookup. eauto.
Qed.

(** X5.  [maxTodoNo], computed by the add of src/unnamed/part_000 (line
    60): every [todoNo] of the list is below [maxTodoNo + 1], the number the
    new item is created with; it is 0 for the empty list; and for a list
    numbered by position it is the length of the list. *)
Theorem maxTodoNo_spec (l : list Todo) :
  (∀ t, t ∈ l → (todoNo t < TodoSliceSeq.maxTodoNo l + 1)%Z) ∧
  (l = [] → TodoSliceSeq.maxTodoNo l = 0%Z) ∧
  (numbered l → TodoSliceSeq.maxTodoNo l = Z.of_nat (length l)).
Proof.
  split_and!.
  - intros t Ht. pose proof (maxTodoNo_bound l t Ht). lia.
  - by intros ->.
  - apply maxTodoNo_numbered.
Qed.

End largest_number.

Section two_copies.
Context `{JSON}.

(** *** The two copies side by side *)

Lemma Forall2_same_trans (l1 l2 l3 : list Todo) :
  Forall2 same_but_todoNo l1 l2 → Forall2 same_but_todoNo l2 l3 →
  Forall2 same_but_todoNo l1 l3.
Proof.
  apply Forall2_trans.
  intros u v w (? & ? & ? & ?) (? & ? & ? & ?). split_and!; congruence.
Qed.

Lemma find_same (p : string) (l l' : list Todo) :
  Forall2 same_but_todoNo l l' →
  match list_find (λ todo, id todo = p) l with
  | Some (i, t) =>
      ∃ t', list_find (λ todo, id todo = p) l' = Some (i, t') ∧
            same_but_todoNo t t'
  | None => list_find (λ todo, id todo = p) l' = None
  end.
Proof.
  induction 1 as [|u u' l l' Hu _ IH]; [done|]. cbn.
  destruct Hu as (Hid & Hrest). rewrite Hid.
  destruct (decide (id u = p)); cbn.
  - exists u'. by split.
  - destruct (list_find _ l) as [[i t]|]; cbn.
    + destruct IH as (t' & -> & Ht). by exists t'.
    + by rewrite IH.
Qed.

Lemma Forall2_same_filter (p : string) (l l' : list Todo) :
  Forall2 same_but_todoNo l l' →
  Forall2 same_but_todoNo
    (filter (λ todo, id todo ≠ p) l) (filter (λ todo, id todo ≠ p) l').
Proof.
  induction 1 as [|u u' l l' Hu _ IH]; [done|].
  rewrite !filter_cons. destruct Hu as (Hid & Hrest). rewrite Hid.
  destruct (decide (id u ≠ p)); [|done]. constructor; [|done]. by split.
Qed.

Lemma save_throws l ls :
  setItem_throws ls = true → saveToLocalStorage l (Some ls) = Some ls.
Proof. intros Hset. cbn. unfold setItem. by rewrite Hset. Qed.

Lemma load_unreadable ls :
  getItem_throws ls = true → loadFromLocalStorage (Some ls) = [].
Proof. intros Hget. cbn. unfold getItem. by rewrite Hget. Qed.

Lemma save_unreadable l ls :
  getItem_throws ls = true →
  loadFromLocalStorage (saveToLocalStorage l (Some ls)) = [].
Proof.
  intros Hget. cbn. unfold setItem.
  destruct (setItem_throws ls); cbn; unfold getItem; cbn; by rewrite Hget.
Qed.

Lemma same_but_todos_key_load lA lB wA wB :
  same_but_todos_key wA wB →
  Forall2 same_but_todoNo lA lB →
  Forall2 same_but_todoNo (loadFromLocalStorage wA) (loadFromLocalStorage wB) →
  same_but_todos_key (saveToLocalStorage lA wA) (saveToLocalStorage lB wB) ∧
  Forall2 same_but_todoNo
    (loadFromLocalStorage (saveToLocalStorage lA wA))
    (loadFromLocalStorage (saveToLocalStorage lB wB)).
Proof.
  destruct wA as [a|], wB as [b|]; try done.
  intros (Hget & Hset & Hkeys) Hl Hload.
  destruct (setItem_throws a) eqn:Hthrows.
  { rewrite !save_throws by congruence.
    split; [cbn; split_and!; [done|congruence|done] | done]. }
  split.
  - cbn. unfold setItem. rewrite Hset, Hthrows. cbn. split_and!; [done..|].
    intros k Hk. rewrite !lookup_insert_ne by done. by apply Hkeys.
  - destruct (getItem_throws a) eqn:Hread.
    + rewrite !save_unreadable by congruence. constructor.
    + rewrite !load_save; [done|eexists; split; [done|congruence]..].
Qed.

Lemma side_by_side_commit lA lB sA sB :
  side_by_side sA sB →
  Forall2 same_but_todoNo lA lB → numbered lB →
  side_by_side (commit lA sA) (commit lB sB).
Proof.
  intros (Hq & _ & _ & Hw & Hload) Hl HlB.
  destruct (same_but_todos_key_load lA lB _ _ Hw Hl Hload) as [Hw' Hload'].
  by split_and!.
Qed.

Lemma side_by_side_modify p f sA sB :
  (∀ u u', same_but_todoNo u u' → same_but_todoNo (f u) (f u')) →
  (∀ u, todoNo (f u) = todoNo u) →
  side_by_side sA sB → side_by_side (modify p f sA) (modify p f sB).
Proof.
  intros Hf Hno Hs. pose proof Hs as (_ & Htodos & Hnum & _).
  pose proof (find_same p _ _ Htodos) as Hfind. unfold modify.
  destruct (list_find _ (todos (state sA))) as [[i t]|].
  - destruct Hfind as (t' & HfindB & Ht). rewrite HfindB.
    apply side_by_side_commit; [done|..].
    + apply Forall2_insert; auto.
    + apply list_find_Some in HfindB as (Hi & _).
      eapply numbered_insert; [done..|]. apply Hno.
  - by rewrite Hfind.
Qed.

Lemma side_by_side_step now a sA sB :
  side_by_side sA sB →
  side_by_side (TodoSlice.reducer (pretty now) a sA)
               (TodoSliceSeq.reducer now a sB).
Proof.
  intros Hs. pose proof Hs as (Hq & Htodos & Hnum & Hw & Hload).
  destruct a as [|t d|p|p|i t d|v];
    cbn [TodoSlice.reducer TodoSliceSeq.reducer].
  - split_and!; cbn; [done| |apply numbered_renumber|done..].
    eapply Forall2_same_trans; [exact Hload|]. apply Forall2_same_renumber.
  - apply side_by_side_commit; [done| |apply numbered_renumber].
    eapply Forall2_same_trans; [|apply Forall2_same_renumber].
    apply Forall2_app; [done|]. by constructor.
  - rewrite !toggleTodo_modify. apply side_by_side_modify; [|done..].
    intros u u' (? & ? & ? & Hc). split_and!; cbn; [done..|]. by rewrite Hc.
  - apply side_by_side_commit; [done| |apply numbered_renumber].
    eapply Forall2_same_trans; [|apply Forall2_same_renumber].
    by apply Forall2_same_filter.
  - rewrite !updateTodoText_modify. apply side_by_side_modify; [|done..].
    intros u u' (? & ? & ? & ?). by split_and!.
  - by split_and!.
Qed.

Lemma side_by_side_run (acts : list (Z * Action)) : ∀ sA sB,
  side_by_side sA sB →
  side_by_side
    (run TodoSlice.reducer (prod_map pretty (λ a, a) <$> acts) sA)
    (run TodoSliceSeq.reducer acts sB).
Proof.
  induction acts as [|[now a] acts IH]; intros sA sB Hs; [done|].
  rewrite fmap_cons. cbn [prod_map fst snd]. rewrite !run_cons.
  by apply IH, side_by_side_step.
Qed.

(** X6.  The two copies of the slice side by side, from the same store
    with items numbered by position, the first handed as ids the decimals of
    the clock values the second is handed.  After every run the copy that
    renumbers holds the items the other copy holds, renumbered by position,
    and the same search query. *)
Theorem copies_differ_in_numbers (acts : list (Z * Action)) (s : Store) :
  numbered (todos (state s)) →
  let sA := run TodoSlice.reducer (prod_map pretty (λ a, a) <$> acts) s in
  let sB := run TodoSliceSeq.reducer acts s in
  todos (state sB) = TodoSliceSeq.renumber (todos (state sA)) ∧
  searchQuery (state sB) = searchQuery (state sA).
Proof.
  intros Hnum sA sB.
  assert (side_by_side s s) as Hs.
  { split_and!; [done|apply Forall2_same_refl|done
                |apply same_but_todos_key_refl|apply Forall2_same_refl]. }
  destruct (side_by_side_run acts s s Hs) as (Hq & Htodos & HnumB & _).
  split; [|done]. by apply same_numbered.
Qed.

End two_copies.

(** ** Numbers without deletes, stale ids, and the order of changes *)

Section stale_ids.
Context `{JSON}.

(** *** src/store/todoSlice.ts without deletes *)

Lemma both_numbered_commit l s :
  both_numbered s → numbered l → both_numbered (commit l s).
Proof.
  intros [_ Hload] Hl. split; [done|]. cbn [commit window].
  by destruct (load_save_cases l (window s)) as [-> | ->].
Qed.

Lemma both_numbered_modify p f s :
  (∀ u, todoNo (f u) = todoNo u) →
  both_numbered s → both_numbered (modify p f s).
Proof.
  intros Hf Hs. unfold modify.
  destruct (list_find _ _) as [[i t]|] eqn:Hfind; [|done].
  apply both_numbered_commit; [done|].
  apply list_find_Some in Hfind as (Hi & _).
  eapply numbered_insert; [apply Hs|done|apply Hf].
Qed.

Lemma both_numbered_slice_step nanoid a s :
  (if a is DeleteTodo _ then False else True) →
  both_numbered s → both_numbered (TodoSlice.reducer nanoid a s).
Proof.
  intros Ha Hs. destruct a as [|t d|p|p|i t d|v]; cbn [TodoSlice.reducer].
  - split; apply Hs.
  - apply both_numbered_commit; [done|]. apply numbered_push; [apply Hs|done].
  - rewrite toggleTodo_modify. by apply both_numbered_modify.
  - done.
  - rewrite updateTodoText_modify. by apply both_numbered_modify.
  - done.
Qed.

(** X7.  On src/store/todoSlice.ts, which never renumbers, the items stay
    numbered by position along every run that has no [deleteTodo], from the
    initial state on a browser whose stored items are numbered. *)
Theorem slice_numbered_without_delete (w : Window)
    (acts : list (string * Action)) :
  numbered (loadFromLocalStorage w) →
  no_delete acts →
  numbered (todos (state
    (run TodoSlice.reducer acts {| state := initialState; window := w |}))).
Proof.
  intros Hw Hacts.
  assert (both_numbered {| state := initialState; window := w |}) as Hs
    by (split; [by intros i t | done]).
  revert Hs. generalize {| state := initialState; window := w |}.
  induction Hacts as [|[e a] acts Ha _ IH]; intros s Hs; [apply Hs|].
  rewrite run_cons. by apply IH, both_numbered_slice_step.
Qed.

(** *** A deleted id *)

(** X8.  After [deleteTodo], on either copy, no item has the deleted id,
    and a [toggleTodo] and an [updateTodoText] with that id leave the store,
    storage included, as it is. *)
Theorem deleted_id_is_stale (p tx d : string) (s : Store) :
  let sA := TodoSlice.deleteTodo p s in
  let sB := TodoSliceSeq.deleteTodo p s in
  (p ∉ id <$> todos (state sA)) ∧
  toggleTodo p sA = sA ∧ updateTodoText p tx d sA = sA ∧
  (p ∉ id <$> todos (state sB)) ∧
  toggleTodo p sB = sB ∧ updateTodoText p tx d sB = sB.
Proof.
  assert (p ∉ id <$> todos (state (TodoSlice.deleteTodo p s))) as HA
    by apply absent_filter.
  assert (p ∉ id <$> todos (state (TodoSliceSeq.deleteTodo p s))) as HB.
  { unfold TodoSliceSeq.deleteTodo. rewrite todos_commit, id_renumber.
    apply absent_filter. }
  cbv zeta. split_and!; try done.
  - by apply toggleTodo_miss.
  - by apply updateTodoText_miss.
  - by apply toggleTodo_miss.
  - by apply updateTodoText_miss.
Qed.

(** *** Order of toggles and updates *)

Lemma save_overwrite l1 l2 w :
  saveToLocalStorage l2 (saveToLocalStorage l1 w) = saveToLocalStorage l2 w.
Proof.
  destruct w as [ls|]; [|done]. cbn. unfold setItem.
  destruct (setItem_throws ls) eqn:Hset; cbn; rewrite ?Hset; [done|].
  cbn. by rewrite insert_insert_eq.
Qed.

Lemma commit_overwrite l1 l2 s : commit l2 (commit l1 s) = commit l2 s.
Proof. unfold commit. cbn. by rewrite save_overwrite. Qed.

Lemma find_insert (p : string) (l : list Todo) i t j u u' :
  list_find (λ todo, id todo = p) l = Some (i, t) →
  l !! j = Some u → id u' = id u →
  list_find (λ todo, id todo = p) (<[j := u']> l)
  = Some (i, if decide (i = j) then u' else t).
Proof.
  intros (Hi & Hp & Hbefore)%list_find_Some Hj Hid.
  apply list_find_Some. split_and!.
  - destruct (decide (i = j)) as [->|Hne].
    + apply list_lookup_insert_eq. by eapply lookup_lt_Some.
    + by rewrite list_lookup_insert_ne.
  - destruct (decide (i = j)) as [->|Hne]; [|done]. 
    rewrite Hid. by simplify_eq.
  - intros k y Hk Hlt. destruct (decide (j = k)) as [->|Hne].
    + rewrite list_lookup_insert_eq in Hk by by eapply lookup_lt_Some.
      injection Hk as <-. rewrite Hid. eauto.
    + rewrite list_lookup_insert_ne in Hk by done. eauto.
Qed.

Lemma find_insert_None (p : string) (l : list Todo) j u u' :
  list_find (λ todo, id todo = p) l = None →
  l !! j = Some u → id u' = id u →
  list_find (λ todo, id todo = p) (<[j := u']> l) = None.
Proof.
  intros Hnone Hj Hid. apply find_undefined in Hnone. apply find_undefined.
  assert (id <$> <[j := u']> l = id <$> l) as ->; [|done].
  rewrite list_fmap_insert, Hid. apply list_insert_id.
  by rewrite list_lookup_fmap, Hj.
Qed.

Lemma modify_comm p q f g s :
  (∀ u, id (f u) = id u) → (∀ u, id (g u) = id u) →
  (p ≠ q ∨ ∀ u, f (g u) = g (f u)) →
  modify p f (modify q g s) = modify q g (modify p f s).
Proof.
  intros Hf Hg Hcomm. unfold modify at 2 4.
  destruct (list_find (λ todo, id todo = p) (todos (state s)))
    as [[i t]|] eqn:Hp;
  destruct (list_find (λ todo, id todo = q) (todos (state s)))
    as [[j u]|] eqn:Hq.
  - pose proof Hp as (Hi & Hidt & _)%list_find_Some.
    pose proof Hq as (Hj & Hidu & _)%list_find_Some.
    unfold modify. rewrite !todos_commit.
    rewrite (find_insert p _ i t j u (g u)), (find_insert q _ j u i t (f t))
      by done.
    rewrite !commit_overwrite. f_equal.
    destruct (decide (i = j)) as [->|Hne].
    + rewrite decide_True by done. simplify_eq.
      destruct Hcomm as [?|Hcomm]; [done|].
      by rewrite !list_insert_insert_eq, Hcomm.
    + rewrite decide_False by done. by apply list_insert_insert_ne.
  - pose proof Hp as (Hi & _)%list_find_Some.
    unfold modify. rewrite Hp, todos_commit.
    by rewrite (find_insert_None q _ i t (f t)).
  - pose proof Hq as (Hj & _)%list_find_Some.
    unfold modify. rewrite Hq, todos_commit.
    by rewrite (find_insert_None p _ j u (g u)).
  - unfold modify. by rewrite Hp, Hq.
Qed.

(** X9.  Two toggles commute, and a toggle commutes with an update,
    whatever their ids; two updates commute when their ids differ.  The
    stores are equal, storage included. *)
Theorem toggles_and_updates_commute (p q tx d tx' d' : string) (s : Store) :
  toggleTodo p (toggleTodo q s) = toggleTodo q (toggleTodo p s) ∧
  toggleTodo p (updateTodoText q tx d s)
  = updateTodoText q tx d (toggleTodo p s) ∧
  (p ≠ q →
   updateTodoText p tx d (updateTodoText q tx' d' s)
   = updateTodoText q tx' d' (updateTodoText p tx d s)).
Proof.
  rewrite !toggleTodo_modify, !updateTodoText_modify. split_and!.
  - destruct (decide (p = q)) as [->|Hne]; [done|].
    apply modify_comm; auto.
  - apply modify_comm; auto.
  - intros Hne. apply modify_comm; auto.
Qed.

End stale_ids.

(** ** The summary line and the search *)

Section summary.
Context `{JSON}.

(** *** The summary line *)

Lemma active_completed (l : list Todo) :
  length (filter (λ t : Todo, negb (completed t)) l)
  + length (filter (λ t : Todo, completed t) l) = length l.
Proof.
  induction l as [|t l IH]; [done|].
  rewrite !filter_cons.
  destruct (completed t); cbn [negb]; repeat case_decide; try done; cbn; lia.
Qed.

Lemma completed_insert (l : list Todo) i t b :
  l !! i = Some t → completed t = negb b →
  length (filter (λ t : Todo, completed t) (<[i := set_completed b t]> l))
  + (if b then 0 else 1)
  = length (filter (λ t : Todo, completed t) l) + (if b then 1 else 0).
Proof.
  intros Hi Hc. rewrite insert_take_drop by by eapply lookup_lt_Some.
  rewrite <-(take_drop_middle l i t Hi) at 3.
  rewrite !filter_app, !filter_cons, !length_app. cbn [completed set_completed].
  rewrite Hc.
  destruct b; cbn [negb]; repeat case_decide; try done; cbn; lia.
Qed.

(** X10.  The three numbers of the summary line of TodoList.tsx (lines
    140-142): Active and Completed add up to Total; [toggleTodo] keeps
    Total; and a [toggleTodo] whose id some item has moves Completed by one,
    down when the first item with the id was completed and up when it was
    not. *)
Theorem summary_counts (p : string) (s : Store) :
  TodoList.active (state s) + TodoList.completedCount (state s)
  = TodoList.total (state s) ∧
  TodoList.total (state (toggleTodo p s)) = TodoList.total (state s) ∧
  (∀ i t,
     list_find (λ todo, id todo = p) (todos (state s)) = Some (i, t) →
     if completed t
     then S (TodoList.completedCount (state (toggleTodo p s)))
          = TodoList.completedCount (state s)
     else TodoList.completedCount (state (toggleTodo p s))
          = S (TodoList.completedCount (state s))).
Proof.
  unfold TodoList.active, TodoList.completedCount, TodoList.total.
  split_and!.
  - apply active_completed.
  - unfold toggleTodo. destruct (list_find _ _) as [[i t]|]; [|done].
    by rewrite todos_commit, length_insert.
  - intros i t Hfind. rewrite (toggleTodo_hit _ _ _ _ Hfind), todos_commit.
    apply list_find_Some in Hfind as (Hi & _).
    pose proof (completed_insert _ i t (negb (completed t)) Hi) as Hcount.
    rewrite negb_involutive in Hcount. specialize (Hcount eq_refl).
    destruct (completed t); cbn [negb] in *; lia.
Qed.

End summary.

(** *** Typing more into the search field *)

Section narrowing.





End narrowing.

(** ** Trimmed titles *)

Section trimming.

Lemma trimEnd_cons (c : ascii) (s : string) :
  trimEnd (String c s)
  = match trimEnd s with
    | EmptyString => if isWhiteSpace c then EmptyString else String c EmptyString
    | t => String c t
    end.
Proof. done. Qed.

Lemma trimEnd_idemp (s : string) : trimEnd (trimEnd s) = trimEnd s.
Proof.
  induction s as [|c s IH]; [done|]. rewrite trimEnd_cons.
  destruct (trimEnd s) as [|d r] eqn:Hs.
  - destruct (isWhiteSpace c) eqn:Hc; [done|].
    rewrite trimEnd_cons. cbn [trimEnd]. by rewrite Hc.
  - rewrite trimEnd_cons. by rewrite IH.
Qed.

Lemma trimEnd_head (c : ascii) (s : string) :
  isWhiteSpace c = false → ∃ r, trimEnd (String c s) = String c r.
Proof.
  intros Hc. rewrite trimEnd_cons. destruct (trimEnd s); rewrite ?Hc; eauto.
Qed.

Lemma trimStart_head (s : string) :
  trimStart s = "" ∨ ∃ c r, trimStart s = String c r ∧ isWhiteSpace c = false.
Proof.
  induction s as [|c s IH]; [by left|]. cbn [trimStart].
  destruct (isWhiteSpace c) eqn:Hc; [done|]. right. by exists c, s.
Qed.

Lemma trim_idemp (s : string) : trim (trim s) = trim s.
Proof.
  unfold trim. destruct (trimStart_head s) as [->|(c & r & -> & Hc)]; [done|].
  destruct (trimEnd_head c r Hc) as [r' Hr]. rewrite Hr.
  cbn [trimStart]. rewrite Hc, <-Hr. apply trimEnd_idemp.
Qed.

Lemma handleAddTodo_tidy title description a :
  handleAddTodo title description = Some a → tidy_action a.
Proof.
  unfold handleAddTodo, truthy. case_bool_decide; [|done].
  intros [= <-]. split_and!; [done|apply trim_idemp..].
Qed.

Lemma handleSaveEdit_tidy editing a :
  handleSaveEdit editing = Some a → tidy_action a.
Proof.
  destruct editing as [e|]; [|done].
  unfold handleSaveEdit, truthy. case_bool_decide; [|done].
  intros [= <-]. split_and!; [done|apply trim_idemp..].
Qed.

End trimming.

Section tidy_titles.
Context `{JSON}.

(** *** Tidy items *)

Lemma tidy_same (l l' : list Todo) :
  Forall2 same_but_todoNo l l' → Forall tidy l → Forall tidy l'.
Proof.
  induction 1 as [|u u' l l' (_ & Ht & Hd & _) _ IH]; [done|].
  intros [Hu Hl]%Forall_cons. constructor; [|by apply IH].
  unfold tidy. by rewrite Ht, Hd.
Qed.

Lemma tidy_filter (p : string) (l : list Todo) :
  Forall tidy l → Forall tidy (filter (λ todo, id todo ≠ p) l).
Proof.
  rewrite !Forall_forall. intros Hl t [_ Ht]%list_elem_of_filter. by apply Hl.
Qed.

Lemma all_tidy_commit l s : all_tidy s → Forall tidy l → all_tidy (commit l s).
Proof.
  intros [_ Hload] Hl. split; [done|]. cbn [commit window].
  by destruct (load_save_cases l (window s)) as [-> | ->].
Qed.

Lemma all_tidy_modify p f s :
  (∀ u, tidy u → tidy (f u)) → all_tidy s → all_tidy (modify p f s).
Proof.
  intros Hf Hs. unfold modify.
  destruct (list_find _ _) as [[i t]|] eqn:Hfind; [|done].
  apply all_tidy_commit; [done|].
  apply list_find_Some in Hfind as (Hi & _). destruct Hs as [Hs _].
  apply Forall_insert; [done|]. apply Hf. by eapply Forall_lookup_1.
Qed.

Lemma all_tidy_slice_step nanoid a s :
  tidy_action a → all_tidy s → all_tidy (TodoSlice.reducer nanoid a s).
Proof.
  intros Ha Hs. destruct a as [|t d|p|p|i t d|v]; cbn [TodoSlice.reducer].
  - split; apply Hs.
  - apply all_tidy_commit; [done|]. apply Forall_app. split; [apply Hs|].
    by apply Forall_singleton.
  - rewrite toggleTodo_modify. apply all_tidy_modify; [|done]. by intros [].
  - apply all_tidy_commit; [done|]. apply tidy_filter, Hs.
  - rewrite updateTodoText_modify. apply all_tidy_modify; [|done].
    by intros u _.
  - done.
Qed.

Lemma all_tidy_seq_step now a s :
  tidy_action a → all_tidy s → all_tidy (TodoSliceSeq.reducer now a s).
Proof.
  intros Ha Hs. destruct a as [|t d|p|p|i t d|v]; cbn [TodoSliceSeq.reducer].
  - split; [|apply Hs]. cbn.
    eapply tidy_same; [apply Forall2_same_renumber|apply Hs].
  - apply all_tidy_commit; [done|].
    eapply tidy_same; [apply Forall2_same_renumber|].
    apply Forall_app. split; [apply Hs|]. by apply Forall_singleton.
  - rewrite toggleTodo_modify. apply all_tidy_modify; [|done]. by intros [].
  - apply all_tidy_commit; [done|].
    eapply tidy_same; [apply Forall2_same_renumber|].
    apply tidy_filter, Hs.
  - rewrite updateTodoText_modify. apply all_tidy_modify; [|done].
    by intros u _.
  - done.
Qed.

End tidy_titles.

(** ** Sessions of the component *)

Section component.
Context `{JSON}.

(** *** Sessions of the component *)

Lemma session_cons {E} (reducer : E → Action → Store → Store) e ev evs a :
  TodoList.session reducer ((e, ev) :: evs) a
  = TodoList.session reducer evs (TodoList.handle reducer e ev a).
Proof. done. Qed.

Lemma all_tidy_handle {E} (reducer : E → Action → Store → Store) :
  (∀ e a s, tidy_action a → all_tidy s → all_tidy (reducer e a s)) →
  ∀ e ev a,
    all_tidy (TodoList.store a) →
    all_tidy (TodoList.store (TodoList.handle reducer e ev a)).
Proof.
  intros Hstep e ev a Ha. destruct ev; cbn [TodoList.handle]; try done;
    try (by apply Hstep).
  - unfold TodoList.handleAddTodo.
    destruct (handleAddTodo _ _) as [act|] eqn:Hact; [|done].
    cbn. apply Hstep; [|done]. by eapply handleAddTodo_tidy.
  - unfold TodoList.handleEditTodo. by destruct (list_find _ _) as [[??]|].
  - unfold TodoList.handleSaveEdit.
    destruct (handleSaveEdit _) as [act|] eqn:Hact; [|done].
    cbn. apply Hstep; [|done]. by eapply handleSaveEdit_tidy.
Qed.

Lemma all_tidy_session {E} (reducer : E → Action → Store → Store) :
  (∀ e a s, tidy_action a → all_tidy s → all_tidy (reducer e a s)) →
  ∀ evs a,
    all_tidy (TodoList.store a) →
    all_tidy (TodoList.store (TodoList.session reducer evs a)).
Proof.
  intros Hstep evs. induction evs as [|[e ev] evs IH]; intros a Ha; [done|].
  rewrite session_cons. by apply IH, all_tidy_handle.
Qed.

(** X12.  Through the component no item gets an empty or untrimmed title.
    Start the component on a browser whose stored items have non-empty
    titles and trimmed titles and descriptions: after every sequence of
    events (mount, typing, Add, toggle, delete, edit, save, cancel, search)
    every item of the store has them, on both copies of the slice. *)
Theorem titles_stay_tidy (w : Window) :
  Forall tidy (loadFromLocalStorage w) →
  let a0 := {| TodoList.local := TodoList.initialLocal;
               TodoList.store := {| state := initialState; window := w |} |} in
  (∀ evs,
     Forall tidy (todos (state (TodoList.store
       (TodoList.session TodoSlice.reducer evs a0))))) ∧
  (∀ evs,
     Forall tidy (todos (state (TodoList.store
       (TodoList.session TodoSliceSeq.reducer evs a0))))).
Proof.
  intros Hw a0.
  assert (all_tidy (TodoList.store a0)) as Ha0 by (split; [constructor|done]).
  split; intros evs.
  - apply (all_tidy_session TodoSlice.reducer); [|done].
    intros; by apply all_tidy_slice_step.
  - apply (all_tidy_session TodoSliceSeq.reducer); [|done].
    intros; by apply all_tidy_seq_step.
Qed.

Lemma modal_matches_handle {E} (reducer : E → Action → Store → Store) e ev a :
  modal_matches (TodoList.local a) →
  modal_matches (TodoList.local (TodoList.handle reducer e ev a)).
Proof.
  unfold modal_matches. intros Ha.
  destruct ev; cbn [TodoList.handle]; try done.
  - unfold TodoList.handleAddTodo. by destruct (handleAddTodo _ _).
  - unfold TodoList.handleEditTodo. by destruct (list_find _ _) as [[??]|].
  - cbn. rewrite Ha. by destruct (TodoList.editingTodo _).
  - cbn. rewrite Ha. by destruct (TodoList.editingTodo _).
  - unfold TodoList.handleSaveEdit. by destruct (handleSaveEdit _).
Qed.

(** X13.  Along every sequence of events from the initial component, the
    edit modal is open exactly when there is a todo being edited, whatever
    slice is behind. *)
Theorem modal_open_iff_editing {E} (reducer : E → Action → Store → Store)
    (evs : list (E * TodoList.Event)) (s : Store) :
  let a := TodoList.session reducer evs
             {| TodoList.local := TodoList.initialLocal;
                TodoList.store := s |} in
  TodoList.isEditModalOpen (TodoList.local a) = true
  ↔ is_Some (TodoList.editingTodo (TodoList.local a)).
Proof.
  cbv zeta.
  assert (modal_matches (TodoList.local
            {| TodoList.local := TodoList.initialLocal;
               TodoList.store := s |})) as Ha0 by done.
  revert Ha0. generalize {| TodoList.local := TodoList.initialLocal;
                            TodoList.store := s |}.
  induction evs as [|[e ev] evs IH]; intros a Ha.
  - cbn. rewrite Ha. apply bool_decide_eq_true.
  - rewrite session_cons. by apply IH, modal_matches_handle.
Qed.

End component.

(** ** The Add button, the edit modal and the table *)

Section buttons.
Context `{JSON}.

(** *** The Add button *)

Lemma renumber_push (l : list Todo) (t : Todo) :
  TodoSliceSeq.renumber (l ++ [t])
  = TodoSliceSeq.renumber l ++ [set_todoNo (Z.of_nat (length l) + 1) t].
Proof.
  unfold TodoSliceSeq.renumber. rewrite imap_app. cbn.
  by rewrite Nat.add_0_r.
Qed.

(** X14.  The Add button is disabled ([!newTodoText.trim()], line 124)
    exactly when a click on it would do nothing.  A click while it is enabled
    empties both inputs and appends one item, not completed, with the trimmed
    title and description and the number length + 1: with the id of
    [nanoid()] on src/store/todoSlice.ts, whose other items stay as they
    are, and with the decimal of the clock as id on the copy that renumbers,
    whose other items are renumbered. *)
Theorem add_button (a : TodoList.App) (nanoid : string) (now : Z) :
  let title := TodoList.newTodoText (TodoList.local a) in
  let description := TodoList.newTodoDescription (TodoList.local a) in
  let l := todos (state (TodoList.store a)) in
  let aA := TodoList.handleAddTodo TodoSlice.reducer nanoid a in
  let aB := TodoList.handleAddTodo TodoSliceSeq.reducer now a in
  (TodoList.addDisabled a = true → aA = a ∧ aB = a) ∧
  (TodoList.addDisabled a = false →
   TodoList.newTodoText (TodoList.local aA) = "" ∧
   TodoList.newTodoDescription (TodoList.local aA) = "" ∧
   TodoList.local aB = TodoList.local aA ∧
   todos (state (TodoList.store aA))
   = l ++ [mkTodo nanoid (Z.of_nat (length l) + 1)
             (trim title) (trim description) false] ∧
   todos (state (TodoList.store aB))
   = TodoSliceSeq.renumber l
     ++ [mkTodo (pretty now) (Z.of_nat (length l) + 1)
           (trim title) (trim description) false]).
Proof.
  cbv zeta.
  unfold TodoList.addDisabled, TodoList.handleAddTodo, handleAddTodo.
  destruct (truthy (trim (TodoList.newTodoText (TodoList.local a)))).
  - split; [done|]. intros _. split_and!; try done.
    cbn. by rewrite renumber_push.
  - split; [done|]. done.
Qed.

(** *** Editing *)

Lemma tidy_unchanged (t : Todo) :
  tidy t → set_description (trim (description t)) (set_text (trim (text t)) t) = t.
Proof. intros (_ & -> & ->). by destruct t. Qed.

Lemma edit_then_save_found {E} (reducer : E → Action → Store → Store) (e : E)
    (id0 : string) (a : TodoList.App) i t :
  (∀ i t d s, reducer e (UpdateTodoText i t d) s = updateTodoText i t d s) →
  list_find (λ todo, id todo = id0) (todos (state (TodoList.store a)))
  = Some (i, t) →
  tidy t →
  let a' := TodoList.handleSaveEdit reducer e (TodoList.handleEditTodo id0 a) in
  state (TodoList.store a') = state (TodoList.store a) ∧
  TodoList.editingTodo (TodoList.local a') = None ∧
  TodoList.isEditModalOpen (TodoList.local a') = false.
Proof.
  intros Hreducer Hfind Ht. cbv zeta. unfold TodoList.handleEditTodo.
  rewrite Hfind. unfold TodoList.handleSaveEdit. cbn.
  pose proof Ht as (Hne & Htext & _). unfold truthy.
  rewrite Htext, bool_decide_eq_true_2 by done. cbn.
  split; [|done]. rewrite Hreducer.
  pose proof Hfind as (Hi & Hid & _)%list_find_Some.
  rewrite Hid, (updateTodoText_hit _ _ _ _ i t Hfind).
  rewrite <-Htext at 1. rewrite tidy_unchanged by done.
  rewrite list_insert_id by done. cbn. by destruct (state _).
Qed.

(** X15.  [handleEditTodo] with an id that no item has does nothing.  With
    the id of an item whose title is non-empty and whose texts are trimmed,
    [handleEditTodo] followed by [handleSaveEdit], nothing typed in between,
    leaves the state as it is, closes the modal and forgets the todo being
    edited, on both copies of the slice. *)
Theorem edit_then_save (id0 : string) (a : TodoList.App) :
  (id0 ∉ id <$> todos (state (TodoList.store a)) →
   TodoList.handleEditTodo id0 a = a) ∧
  (∀ i t,
     list_find (λ todo, id todo = id0) (todos (state (TodoList.store a)))
     = Some (i, t) →
     tidy t →
     (∀ nanoid,
        let a' := TodoList.handleSaveEdit TodoSlice.reducer nanoid
                    (TodoList.handleEditTodo id0 a) in
        state (TodoList.store a') = state (TodoList.store a) ∧
        TodoList.editingTodo (TodoList.local a') = None ∧
        TodoList.isEditModalOpen (TodoList.local a') = false) ∧
     (∀ now,
        let a' := TodoList.handleSaveEdit TodoSliceSeq.reducer now
                    (TodoList.handleEditTodo id0 a) in
        state (TodoList.store a') = state (TodoList.store a) ∧
        TodoList.editingTodo (TodoList.local a') = None ∧
        TodoList.isEditModalOpen (TodoList.local a') = false)).
Proof.
  split.
  - intros Habsent%find_undefined. unfold TodoList.handleEditTodo.
    by rewrite Habsent.
  - intros i t Hfind Ht. split; intros e;
      by apply (edit_then_save_found _ e id0 a i t).
Qed.

End buttons.

(** *** What the table shows *)

Section table.

Lemma filteredTodos_empty_query (st : TodoState) :
  searchQuery st = "" → filteredTodos st = todos st.
Proof.
  unfold filteredTodos. intros ->. induction (todos st) as [|t l IH]; [done|].
  rewrite filter_cons, decide_True, IH; [done|].
  apply Is_true_true, includes_empty.
Qed.

Lemma filteredTodos_none (st : TodoState) :
  (∀ todo, todo ∈ todos st →
     ¬ contains_ignoring_case (text todo) (searchQuery st)) →
  filteredTodos st = [].
Proof.
  unfold filteredTodos. intros Hnone.
  induction (todos st) as [|t l IH]; [done|].
  rewrite filter_cons, decide_False, IH; [done|..].
  - intros u Hu. apply Hnone. by right.
  - rewrite Is_true_true, includes_toLowerCase. apply Hnone. by left.
Qed.

Lemma rows_nil (l : list Todo) : DataTable.rows l = [] ↔ l = [].
Proof.
  unfold DataTable.rows. split; [apply fmap_nil_inv | by intros ->].
Qed.

Lemma row_id_rows (l : list Todo) :
  DataTable.row_id <$> DataTable.rows l = id <$> l.
Proof. unfold DataTable.rows. by rewrite <-list_fmap_compose. Qed.

Lemma row_description_rows (l : list Todo) :
  Forall (λ row, DataTable.row_description row ≠ "") (DataTable.rows l).
Proof.
  unfold DataTable.rows. apply Forall_fmap, Forall_true. intros t. cbn.
  unfold truthy. by case_bool_decide.
Qed.

Lemma body_rows (l : list Todo) (n : nat) (q : string) :
  l ≠ [] → DataTable.body l n q = DataTable.Rows (DataTable.rows l).
Proof.
  intros Hl. unfold DataTable.body.
  destruct (DataTable.rows l) eqn:Hrows; [|done]. by apply rows_nil in Hrows.
Qed.

Lemma body_message (n : nat) (q : string) :
  DataTable.body [] n q
  = DataTable.Message
      (if bool_decide (n = 0) then "No todos yet. Add one above!"
       else "No todos match your search " +:+
            String "034" (q +:+ String "034" ".")).
Proof. done. Qed.

(** X16.  What DataTable.tsx shows for the state.  The message that there
    are no todos yet exactly when the store has no item; the message that no
    todo matches the search, with the query in it, when the store has items
    and no title contains the query; a row for every item when the query is
    empty.  Whenever it shows rows, they carry the ids of [filteredTodos] in
    its order, and no description cell is empty. *)
Theorem rendered_table (st : TodoState) :
  (DataTable.rendered st = DataTable.Message "No todos yet. Add one above!"
   ↔ todos st = []) ∧
  (todos st ≠ [] →
   (∀ todo, todo ∈ todos st →
      ¬ contains_ignoring_case (text todo) (searchQuery st)) →
   DataTable.rendered st
   = DataTable.Message
       ("No todos match your search " +:+
        String "034" (searchQuery st +:+ String "034" "."))) ∧
  (todos st ≠ [] → searchQuery st = "" →
   DataTable.rendered st = DataTable.Rows (DataTable.rows (todos st))) ∧
  (∀ r, DataTable.rendered st = DataTable.Rows r →
     DataTable.row_id <$> r = id <$> filteredTodos st ∧
     Forall (λ row, DataTable.row_description row ≠ "") r).
Proof.
  unfold DataTable.rendered. split_and!.
  - split.
    + destruct (decide (filteredTodos st = [])) as [Hnil|Hnil].
      * rewrite Hnil, body_message. case_bool_decide as Hlen.
        -- intros _. by apply length_zero_iff_nil.
        -- intros Heq. discriminate Heq.
      * by rewrite body_rows.
    + intros Hnil. unfold filteredTodos. by rewrite Hnil.
  - intros Hne Hnone. rewrite filteredTodos_none, body_message by done.
    rewrite bool_decide_eq_false_2; [done|].
    by intros ?%length_zero_iff_nil.
  - intros Hne Hq. rewrite filteredTodos_empty_query by done.
    by apply body_rows.
  - intros r. destruct (decide (filteredTodos st = [])) as [Hnil|Hnil].
    + by rewrite Hnil, body_message.
    + rewrite body_rows by done. intros [= <-].
      split; [apply row_id_rows | apply row_description_rows].
Qed.

End table.

(** ** Writes that fail, and what the component dispatches *)

Section failing_writes.
Context `{JSON}.

(** *** Writes that fail *)

Lemma save_not_writable l w : ¬ writable w → saveToLocalStorage l w = w.
Proof.
  destruct w as [ls|]; [|done]. intros Hw.
  destruct (setItem_throws ls) eqn:Hset; [by apply save_throws|].
  destruct Hw. by eexists.
Qed.

Lemma window_modify_not_writable p f s :
  ¬ writable (window s) → window (modify p f s) = window s.
Proof.
  intros Hw. unfold modify. destruct (list_find _ _) as [[??]|]; [|done].
  by apply save_not_writable.
Qed.

Lemma window_slice_not_writable nanoid a s :
  ¬ writable (window s) → window (TodoSlice.reducer nanoid a s) = window s.
Proof.
  intros Hw. destruct a; cbn [TodoSlice.reducer]; try done;
    try (by apply save_not_writable).
  - rewrite toggleTodo_modify. by apply window_modify_not_writable.
  - rewrite updateTodoText_modify. by apply window_modify_not_writable.
Qed.

Lemma window_seq_not_writable now a s :
  ¬ writable (window s) → window (TodoSliceSeq.reducer now a s) = window s.
Proof.
  intros Hw. destruct a; cbn [TodoSliceSeq.reducer]; try done;
    try (by apply save_not_writable).
  - rewrite toggleTodo_modify. by apply window_modify_not_writable.
  - rewrite updateTodoText_modify. by apply window_modify_not_writable.
Qed.

Lemma window_slice_run_not_writable acts s :
  ¬ writable (window s) → window (run TodoSlice.reducer acts s) = window s.
Proof.
  revert s. induction acts as [|[e a] acts IH]; intros s Hw; [done|].
  rewrite run_cons, IH; rewrite window_slice_not_writable; done.
Qed.

Lemma window_seq_run_not_writable acts s :
  ¬ writable (window s) → window (run TodoSliceSeq.reducer acts s) = window s.
Proof.
  revert s. induction acts as [|[e a] acts IH]; intros s Hw; [done|].
  rewrite run_cons, IH; rewrite window_seq_not_writable; done.
Qed.

(** X17.  While the storage takes no writes ([setItem] throws, or there is
    no window), a run of either copy leaves the browser exactly as it was,
    and the process started next loads what it would have loaded before the
    run: what the run changed is lost on reload. *)
Theorem failed_writes_lose_the_run (s : Store) :
  ¬ writable (window s) →
  (∀ acts,
     window (run TodoSlice.reducer acts s) = window s ∧
     TodoSlice.initializeTodos (restart (run TodoSlice.reducer acts s))
     = TodoSlice.initializeTodos (restart s)) ∧
  (∀ acts,
     window (run TodoSliceSeq.reducer acts s) = window s ∧
     TodoSliceSeq.initializeTodos (restart (run TodoSliceSeq.reducer acts s))
     = TodoSliceSeq.initializeTodos (restart s)).
Proof.
  intros Hw.
  split; intros acts; (split; [|unfold restart]).
  - by apply window_slice_run_not_writable.
  - by rewrite window_slice_run_not_writable.
  - by apply window_seq_run_not_writable.
  - by rewrite window_seq_run_not_writable.
Qed.

(** *** What the component dispatches *)

Lemma run_app {E} (reducer : E → Action → Store → Store) acts1 acts2 s :
  run reducer (acts1 ++ acts2) s = run reducer acts2 (run reducer acts1 s).
Proof. apply foldl_app. Qed.

Lemma handle_dispatches {E} (reducer : E → Action → Store → Store) e ev a :
  ∃ acts,
    TodoList.store (TodoList.handle reducer e ev a)
    = run reducer acts (TodoList.store a) ∧
    length acts ≤ 1 ∧ Forall (λ ea, tidy_action ea.2) acts.
Proof.
  assert (∀ st, st = TodoList.store a →
    ∃ acts, st = run reducer acts (TodoList.store a) ∧
      length acts ≤ 1 ∧ Forall (λ ea, tidy_action ea.2) acts) as Hnone.
  { intros st ->. exists []. split_and!; [done|cbn; lia|constructor]. }
  assert (∀ act, tidy_action act →
    ∃ acts, reducer e act (TodoList.store a)
            = run reducer acts (TodoList.store a) ∧
      length acts ≤ 1 ∧ Forall (λ ea, tidy_action ea.2) acts) as Hone.
  { intros act Hact. exists [(e, act)].
    split_and!; [done|cbn; lia|by repeat constructor]. }
  destruct ev as [|v|v|
                  |i|i|i|v|v| | |v]; cbn [TodoList.handle].
  - by apply Hone.
  - by apply Hnone.
  - by apply Hnone.
  - unfold TodoList.handleAddTodo.
    destruct (handleAddTodo _ _) as [act|] eqn:Hact; [|by apply Hnone].
    apply Hone. by eapply handleAddTodo_tidy.
  - by apply Hone.
  - by apply Hone.
  - unfold TodoList.handleEditTodo.
    destruct (list_find _ _) as [[??]|]; by apply Hnone.
  - by apply Hnone.
  - by apply Hnone.
  - unfold TodoList.handleSaveEdit.
    destruct (handleSaveEdit _) as [act|] eqn:Hact; [|by apply Hnone].
    apply Hone. by eapply handleSaveEdit_tidy.
  - by apply Hnone.
  - by apply Hone.
Qed.

(** X18.  The store that a sequence of events on the component reaches is
    the store a run of the slice reaches, with at most one action for each
    event, and every [addTodo] and [updateTodoText] of that run carries a
    non-empty title and trimmed texts. *)
Theorem session_is_run {E} (reducer : E → Action → Store → Store)
    (evs : list (E * TodoList.Event)) (a : TodoList.App) :
  ∃ acts,
    TodoList.store (TodoList.session reducer evs a)
    = run reducer acts (TodoList.store a) ∧
    length acts ≤ length evs ∧
    Forall (λ ea, tidy_action ea.2) acts.
Proof.
  revert a. induction evs as [|[e ev] evs IH]; intros a.
  { by exists []. }
  rewrite session_cons.
  destruct (handle_dispatches reducer e ev a) as (acts1 & Hs1 & Hlen1 & Ht1).
  destruct (IH (TodoList.handle reducer e ev a)) as (acts2 & Hs2 & Hlen2 & Ht2).
  exists (acts1 ++ acts2). split_and!.
  - by rewrite run_app, <-Hs1.
  - rewrite length_app. cbn. lia.
  - by apply Forall_app.
Qed.

End failing_writes.

(** ** Ids from the clock *)

Section clock.
Context `{JSON}.

Lemma ids_from_commit used l s :
  ids_from used s → (id <$> l) ⊆ pretty <$> used → ids_from used (commit l s).
Proof.
  intros [_ Hload] Hl. split; [done|]. cbn [commit window].
  by destruct (load_save_cases l (window s)) as [-> | ->].
Qed.

Lemma ids_from_modify used p f s :
  (∀ t, id (f t) = id t) → ids_from used s → ids_from used (modify p f s).
Proof.
  intros Hf Hs. unfold modify.
  destruct (list_find _ _) as [[i t]|] eqn:Hfind; [|done].
  apply ids_from_commit; [done|].
  apply list_find_Some in Hfind as (Hi & _ & _).
  rewrite list_fmap_insert, Hf, list_insert_id; [apply Hs|].
  by rewrite list_lookup_fmap, Hi.
Qed.

Lemma ids_from_mono used used' s :
  used ⊆ used' → ids_from used s → ids_from used' s.
Proof.
  intros Hsub [Hm Hl].
  assert (pretty <$> used ⊆@{list string} pretty <$> used') as Hp.
  { intros i (n & -> & Hn)%list_elem_of_fmap.
    apply list_elem_of_fmap. eauto. }
  split; by etrans.
Qed.

Lemma ids_from_seq_step used now a s :
  ids_from used s →
  ids_from (used ++ (if a is AddTodo _ _ then [now] else []))
           (TodoSliceSeq.reducer now a s).
Proof.
  intros Hs. pose proof Hs as [Hm Hl].
  destruct a; cbn [TodoSliceSeq.reducer]; rewrite ?app_nil_r.
  - split; [|done].
    cbn [TodoSliceSeq.initializeTodos state todos]. by rewrite id_renumber.
  - apply ids_from_commit.
    { eapply ids_from_mono; [|done]. by apply list_subseteq_app_l. }
    rewrite id_renumber, !fmap_app. intros i [Hi|Hi]%elem_of_app.
    + apply elem_of_app. left. by apply Hm.
    + apply elem_of_app. by right.
  - rewrite toggleTodo_modify. by apply ids_from_modify.
  - apply ids_from_commit; [done|]. rewrite id_renumber, id_filter.
    intros i [_ Hi]%list_elem_of_filter. by apply Hm.
  - rewrite updateTodoText_modify. by apply ids_from_modify.
  - done.
Qed.

Lemma clock_fresh_run acts : ∀ used s,
  ids_from used s → NoDup (used ++ add_times acts) →
  fresh_run TodoSliceSeq.reducer pretty acts s.
Proof.
  induction acts as [|[now a] acts IH]; intros used s Hs Hnd; [done|].
  cbn [fresh_run]. split.
  - destruct a; try done. cbn in Hnd.
    apply NoDup_app in Hnd as (_ & Hdisj & _).
    destruct Hs as [Hm _].
    intros (n & ->%(inj pretty) & Hn)%Hm%list_elem_of_fmap.
    apply (Hdisj _ Hn). by left.
  - apply (IH (used ++ (if a is AddTodo _ _ then [now] else []))).
    + by apply ids_from_seq_step.
    + destruct a; cbn in Hnd |- *; rewrite ?app_nil_r; try done.
      by rewrite <-app_assoc.
Qed.

(** X19.  On the copy that takes its ids from the clock: when no id occurs
    twice, every id in memory and in the storage is the decimal of a clock
    value of [used], and the adds of the run happen at clock values that are
    new and pairwise different, no id occurs twice after the run. *)
Theorem distinct_clock_distinct_ids (used : list Z)
    (acts : list (Z * Action)) (s : Store) :
  distinct_ids s → ids_from used s → NoDup (used ++ add_times acts) →
  distinct_ids (run TodoSliceSeq.reducer acts s).
Proof.
  intros Hd Hs Hnd. apply seq_distinct_ids_run; [done|].
  by eapply clock_fresh_run.
Qed.

End clock.

(** ** The further properties on concrete inputs *)

Lemma setSearchQuery_commutes_witness :
  (∀ v, ToggleTodo "a" ≠ SetSearchQuery v) ∧
  TodoSliceSeq.reducer 5%Z (ToggleTodo "a") (setSearchQuery "milk" two_items)
  = setSearchQuery "milk" (TodoSliceSeq.reducer 5%Z (ToggleTodo "a") two_items).
Proof.
  assert (∀ v, ToggleTodo "a" ≠ SetSearchQuery v) as Hne by done.
  split; [exact Hne|].
  exact (proj2 (setSearchQuery_commutes "milk" (ToggleTodo "a") two_items Hne)
           5%Z).
Defined.

Lemma state_independent_of_storage_witness :
  AddTodo "Pay rent" "" ≠ InitializeTodos ∧
  state (TodoSlice.reducer "c" (AddTodo "Pay rent" "")
           {| state := state two_items; window := None |})
  = state (TodoSlice.reducer "c" (AddTodo "Pay rent" "") two_items).
Proof.
  assert (AddTodo "Pay rent" "" ≠ InitializeTodos) as Hne by done.
  split; [exact Hne|].
  exact (proj1 (state_independent_of_storage (AddTodo "Pay rent" "")
                  two_items None Hne) "c").
Defined.

Lemma maxTodoNo_spec_witness :
  numbered [milk; bob] ∧ TodoSliceSeq.maxTodoNo [milk; bob] = 2%Z.
Proof.
  assert (numbered [milk; bob]) as Hn.
  { intros [|[|i]] t [= <-]; reflexivity. }
  split; [exact Hn|].
  exact (proj2 (proj2 (maxTodoNo_spec [milk; bob])) Hn).
Defined.

Lemma copies_differ_in_numbers_witness :
  numbered (todos initialState) ∧
  todos (state (run TodoSliceSeq.reducer
    [(1700000000000%Z, AddTodo "Buy milk" "");
     (1700000000001%Z, AddTodo "Call Bob" "re: project");
     (1700000000002%Z, DeleteTodo "1700000000000");
     (1700000000003%Z, AddTodo "Pay rent" "")]
    {| state := initialState; window := fresh_browser |}))
  = TodoSliceSeq.renumber (todos (state (run TodoSlice.reducer
      [("1700000000000", AddTodo "Buy milk" "");
       ("1700000000001", AddTodo "Call Bob" "re: project");
       ("1700000000002", DeleteTodo "1700000000000");
       ("1700000000003", AddTodo "Pay rent" "")]
      {| state := initialState; window := fresh_browser |}))).
Proof.
  assert (numbered (todos initialState)) as Hn by (intros i t [=]).
  split; [exact Hn|].
  exact (proj1 (copies_differ_in_numbers
    [(1700000000000%Z, AddTodo "Buy milk" "");
     (1700000000001%Z, AddTodo "Call Bob" "re: project");
     (1700000000002%Z, DeleteTodo "1700000000000");
     (1700000000003%Z, AddTodo "Pay rent" "")]
    {| state := initialState; window := fresh_browser |} Hn)).
Defined.

Lemma slice_numbered_without_delete_witness :
  numbered (loadFromLocalStorage fresh_browser) ∧
  no_delete [("a", AddTodo "Buy milk" ""); ("b", ToggleTodo "a");
             ("c", AddTodo "Call Bob" "")] ∧
  numbered (todos (state (run TodoSlice.reducer
    [("a", AddTodo "Buy milk" ""); ("b", ToggleTodo "a");
     ("c", AddTodo "Call Bob" "")]
    {| state := initialState; window := fresh_browser |}))).
Proof.
  assert (numbered (loadFromLocalStorage fresh_browser)) as Hn
    by (intros i t [=]).
  assert (no_delete [("a", AddTodo "Buy milk" ""); ("b", ToggleTodo "a");
                     ("c", AddTodo "Call Bob" "")]) as Hnd
    by (repeat constructor).
  split_and!; [exact Hn | exact Hnd |].
  exact (slice_numbered_without_delete fresh_browser _ Hn Hnd).
Defined.

Lemma toggles_and_updates_commute_witness :
  "a" ≠ "b" ∧
  updateTodoText "a" "Buy oat milk" "" (updateTodoText "b" "Call Ann" "" two_items)
  = updateTodoText "b" "Call Ann" "" (updateTodoText "a" "Buy oat milk" "" two_items).
Proof.
  assert ("a" ≠ "b") as Hne by done.
  split; [exact Hne|].
  exact (proj2 (proj2 (toggles_and_updates_commute
    "a" "b" "Buy oat milk" "" "Call Ann" "" two_items)) Hne).
Defined.

Lemma summary_counts_witness :
  list_find (λ todo, id todo = "a") (todos (state two_items)) = Some (0, milk) ∧
  TodoList.completedCount (state (toggleTodo "a" two_items))
  = S (TodoList.completedCount (state two_items)).
Proof.
  assert (list_find (λ todo, id todo = "a") (todos (state two_items))
          = Some (0, milk)) as Hfind by reflexivity.
  split; [exact Hfind|].
  exact (proj2 (proj2 (summary_counts "a" two_items)) 0 milk Hfind).
Defined.


Lemma titles_stay_tidy_witness :
  Forall tidy (loadFromLocalStorage fresh_browser) ∧
  Forall tidy (todos (state (TodoList.store
    (TodoList.session TodoSlice.reducer
       [("a", TodoList.Mount); ("b", TodoList.TypeTitle "  Buy milk ");
        ("c", TodoList.ClickAdd)]
       {| TodoList.local := TodoList.initialLocal;
          TodoList.store :=
            {| state := initialState; window := fresh_browser |} |})))).
Proof.
  assert (Forall tidy (loadFromLocalStorage fresh_browser)) as Ht
    by constructor.
  split; [exact Ht|].
  exact (proj1 (titles_stay_tidy fresh_browser Ht) _).
Defined.

Lemma add_button_witness :
  let a := {| TodoList.local :=
                {| TodoList.newTodoText := "  Pay rent ";
                   TodoList.newTodoDescription := " by Friday";
                   TodoList.editingTodo := None;
                   TodoList.isEditModalOpen := false |};
              TodoList.store := two_items |} in
  TodoList.addDisabled a = false ∧
  todos (state (TodoList.store
    (TodoList.handleAddTodo TodoSlice.reducer "c" a)))
  = [milk; bob; mkTodo "c" 3 "Pay rent" "by Friday" false].
Proof.
  cbv zeta.
  assert (TodoList.addDisabled
    {| TodoList.local :=
         {| TodoList.newTodoText := "  Pay rent ";
            TodoList.newTodoDescription := " by Friday";
            TodoList.editingTodo := None;
            TodoList.isEditModalOpen := false |};
       TodoList.store := two_items |} = false) as He by reflexivity.
  split; [exact He|].
  exact (proj1 (proj2 (proj2 (proj2 (proj2 (add_button _ "c" 0%Z) He))))).
Defined.

Lemma edit_then_save_witness :
  let a := {| TodoList.local := TodoList.initialLocal;
              TodoList.store := two_items |} in
  list_find (λ todo, id todo = "b") (todos (state (TodoList.store a)))
  = Some (1, bob) ∧
  tidy bob ∧
  state (TodoList.store
    (TodoList.handleSaveEdit TodoSlice.reducer "n"
       (TodoList.handleEditTodo "b" a)))
  = state (TodoList.store a).
Proof.
  cbv zeta.
  assert (list_find (λ todo, id todo = "b")
            (todos (state (TodoList.store
              {| TodoList.local := TodoList.initialLocal;
                 TodoList.store := two_items |})))
          = Some (1, bob)) as Hfind by reflexivity.
  assert (tidy bob) as Ht by (split_and!; [done|reflexivity|reflexivity]).
  split_and!; [exact Hfind | exact Ht |].
  exact (proj1 (proj1 (proj2 (edit_then_save "b" _) 1 bob Hfind Ht) "n")).
Defined.

Lemma rendered_table_witness :
  let st := {| todos := [milk; bob]; searchQuery := "xyz" |} in
  todos st ≠ [] ∧
  (∀ todo, todo ∈ todos st →
     ¬ contains_ignoring_case (text todo) (searchQuery st)) ∧
  DataTable.rendered st
  = DataTable.Message
      ("No todos match your search " +:+
       String "034" ("xyz" +:+ String "034" ".")).
Proof.
  cbv zeta.
  assert (todos {| todos := [milk; bob]; searchQuery := "xyz" |} ≠ [])
    as Hne by done.
  assert (∀ todo, todo ∈ todos {| todos := [milk; bob]; searchQuery := "xyz" |} →
     ¬ contains_ignoring_case (text todo)
         (searchQuery {| todos := [milk; bob]; searchQuery := "xyz" |}))
    as Hnone.
  { intros todo Hin Hc. apply includes_toLowerCase in Hc.
    cbn [todos searchQuery] in Hin, Hc.
    apply elem_of_cons in Hin as [->|Hin];
      [|apply elem_of_cons in Hin as [->|Hin%elem_of_nil]; [|done]];
      vm_compute in Hc; done. }
  split_and!; [exact Hne | exact Hnone |].
  exact (proj1 (proj2 (rendered_table _)) Hne Hnone).
Defined.

Lemma failed_writes_lose_the_run_witness :
  ¬ writable None ∧
  window (run TodoSlice.reducer
            [("a", AddTodo "Buy milk" ""); ("b", ToggleTodo "a")]
            {| state := initialState; window := None |}) = None.
Proof.
  assert (¬ writable None) as Hw by (intros (ls & [=] & _)).
  split; [exact Hw|].
  exact (proj1 (proj1 (failed_writes_lose_the_run
    {| state := initialState; window := None |} Hw) _)).
Defined.

Lemma distinct_clock_distinct_ids_witness :
  let s := {| state := initialState; window := fresh_browser |} in
  let acts := [(1700000000000%Z, AddTodo "Buy milk" "");
               (1700000000001%Z, AddTodo "Call Bob" "");
               (1700000000001%Z, DeleteTodo "1700000000000");
               (1700000000002%Z, AddTodo "Pay rent" "")] in
  distinct_ids s ∧ ids_from [] s ∧ NoDup ([] ++ add_times acts) ∧
  distinct_ids (run TodoSliceSeq.reducer acts s).
Proof.
  cbv zeta.
  assert (distinct_ids {| state := initialState; window := fresh_browser |})
    as Hd by (split; constructor).
  assert (ids_from [] {| state := initialState; window := fresh_browser |})
    as Hi by (split; intros i Hin; exact Hin).
  assert (NoDup ([] ++ add_times
            [(1700000000000%Z, AddTodo "Buy milk" "");
             (1700000000001%Z, AddTodo "Call Bob" "");
             (1700000000001%Z, DeleteTodo "1700000000000");
             (1700000000002%Z, AddTodo "Pay rent" "")])) as Hnd.
  { apply (bool_decide_unpack _). vm_compute. exact I. }
  split_and!; [exact Hd | exact Hi | exact Hnd |].
  exact (distinct_clock_distinct_ids [] _ _ Hd Hi Hnd).
Defined.
